(** * imitation.scripts.common.train

    A shallow embedding of [src/imitation/scripts/common/train.py]: the
    Sacred configuration of the [train] ingredient (defaults, named
    configurations, the configuration hook) and [eval_policy], the helper
    that rolls a policy out and summarises the episodes.

    Python dictionaries are [gmap string _], exceptions are an error type
    threaded through an outcome monad, and the calls [eval_policy] makes to
    other modules are the operations of a small program monad whose
    interpreter threads the Python heap and records every call. *)

From Stdlib Require Import ZArith QArith Lia.
From stdpp Require Import base option gmap strings list fin_maps.

Local Open Scope string_scope.
Local Open Scope Z_scope.
Local Open Scope list_scope.

(** ** Exceptions and outcomes *)

(** The exception classes that appear in the model. *)
Inductive exn : Type :=
| KeyError (key : string)
| TypeError (msg : string)
| ValueError (msg : string)
| AttributeError (msg : string)
| AssertionError (msg : string).

(** What running a piece of Python yields: a value, a raised exception, or
    nothing yet ([Diverge]: the loop is still running when the fuel of the
    interpreter is spent). *)
Inductive outcome (A : Type) : Type :=
| Return (a : A)
| Raise (e : exn)
| Diverge.
Arguments Return {A} a.
Arguments Raise {A} e.
Arguments Diverge {A}.

#[global] Instance outcome_ret : MRet outcome := @Return.
#[global] Instance outcome_bind : MBind outcome := fun A B f o =>
  match o with
  | Return a => f a
  | Raise e => Raise e
  | Diverge => Diverge
  end.

Definition returns {A} (o : outcome A) : bool :=
  match o with Return _ => true | _ => false end.

(** ** Python values of the configuration *)

Module Py.

(** The values a Sacred configuration of this ingredient holds: [None],
    integers, strings, classes (by qualified name), lists (a tuple behaves
    as a list in what follows) and dictionaries with string keys. *)
#[warnings="-register-all"]
Inductive val : Type :=
| None_
| Int (z : Z)
| Str (s : string)
| Class (qualname : string)
| List (l : list val)
| Dict (d : gmap string val).

(** [v[k]], for a string [k]. *)
Definition getitem (v : val) (k : string) : outcome val :=
  match v with
  | Dict d => match d !! k with
              | Some x => Return x
              | None => Raise (KeyError k)
              end
  | Str _ => Raise (TypeError "string indices must be integers")
  | List _ => Raise (TypeError "list indices must be integers or slices, not str")
  | None_ | Int _ | Class _ => Raise (TypeError "object is not subscriptable")
  end.

(** [p in s] for two strings: [p] occurs in [s]. *)
Fixpoint is_substring (p s : string) : bool :=
  String.prefix p s ||
  match s with
  | EmptyString => false
  | String _ s' => is_substring p s'
  end.

(** [x == k] for a string [k]: only an equal string is equal to it. *)
Definition eq_str (k : string) (x : val) : bool :=
  match x with
  | Str s => bool_decide (s = k)
  | _ => false
  end.

(** [k in v], for a string [k]: a key of a dictionary, a substring of a
    string, an element of a list.  The other values are not iterable. *)
Definition contains (k : string) (v : val) : outcome bool :=
  match v with
  | Dict d => Return (bool_decide (k ∈ dom d))
  | Str s => Return (is_substring k s)
  | List l => Return (existsb (eq_str k) l)
  | None_ | Int _ | Class _ => Raise (TypeError "argument is not iterable")
  end.

End Py.

(** ** The [train] ingredient's configuration *)

(** [config]: the defaults. *)
Definition config : gmap string Py.val :=
  {[ "policy_cls" := Py.Class "imitation.policies.base.FeedForward32Policy";
     "policy_kwargs" := Py.Dict ∅;
     "n_episodes_eval" := Py.Int 50 ]}.

(** Named configurations: each is the set of entries it overrides. *)
Definition fast : gmap string Py.val :=
  {[ "n_episodes_eval" := Py.Int 1 ]}.

Definition sac : gmap string Py.val :=
  {[ "policy_cls" := Py.Class "imitation.policies.base.SAC1024Policy" ]}.

Definition normalize_disable : gmap string Py.val :=
  {[ "policy_kwargs" :=
       Py.Dict {[ "features_extractor_class" :=
                    Py.Class "stable_baselines3.common.torch_layers.FlattenExtractor" ]} ]}.

Definition NORMALIZE_RUNNING_POLICY_KWARGS : Py.val :=
  Py.Dict
    {[ "features_extractor_class" :=
         Py.Class "imitation.policies.base.NormalizeFeaturesExtractor";
       "features_extractor_kwargs" :=
         Py.Dict {[ "normalize_class" :=
                      Py.Class "imitation.util.networks.RunningNorm" ]} ]}.

Definition normalize_running : gmap string Py.val :=
  {[ "policy_kwargs" := NORMALIZE_RUNNING_POLICY_KWARGS ]}.

(** [config_hook(config, command_name, logger)]: the two last arguments are
    deleted on entry and play no part.  The function reads [config] and
    stores nothing into it; what it returns is the mapping of entries Sacred
    is to set. *)
Definition config_hook {C L : Type} (config : Py.val) (command_name : C) (logger : L)
  : outcome Py.val :=
  train ← Py.getitem config "train";
  policy_kwargs ← Py.getitem train "policy_kwargs";
  present ← Py.contains "features_extractor_class" policy_kwargs;
  if negb present
  then Return (Py.Dict {[ "policy_kwargs" := NORMALIZE_RUNNING_POLICY_KWARGS ]})
  else Return (Py.Dict ∅).

(** [config["train"]["policy_kwargs"]] *)
Definition train_policy_kwargs (config : Py.val) : outcome Py.val :=
  train ← Py.getitem config "train";
  Py.getitem train "policy_kwargs".

(** ** Objects of an evaluation *)

Definition observation := Z.
Definition action := Z.
Definition reward := Z.

(** One step of an episode.  [info] is the secondary reward a monitor
    attached to the environment reports for the step, when there is one. *)
Record transition : Type := Transition {
  obs : observation;
  act : action;
  rew : reward;
  done : bool;
  info : option reward;
}.

(** A trajectory is the ordered sequence of the steps of one episode. *)
Definition trajectory : Type := list transition.

(** A reference to a vectorised environment: a base environment object, or a
    wrapper object around another environment. *)
Inductive vec_env : Type :=
| VecEnv (id : nat)
| VecEnvWrapper (wrapper : nat) (venv : vec_env).

#[global] Instance vec_env_eq_dec : EqDecision vec_env.
Proof. solve_decision. Defined.

(** [unwrapped venv]: the base environment under all wrappers. *)
Fixpoint unwrapped (venv : vec_env) : nat :=
  match venv with
  | VecEnv id => id
  | VecEnvWrapper _ inner => unwrapped inner
  end.

(** [wrapped_form_of venv e]: [e] is [venv] under zero or more wrappers. *)
Fixpoint wrapped_form_of (venv e : vec_env) : bool :=
  bool_decide (e = venv) ||
  match e with
  | VecEnv _ => false
  | VecEnvWrapper _ inner => wrapped_form_of venv inner
  end.

(** The first argument of [eval_policy], [Union[BaseAlgorithm, BasePolicy]]:
    a reference to an object of one of the two classes.  The constructor is
    what [isinstance(rl_algo, base_class.BaseAlgorithm)] inspects. *)
Inductive rl_object : Type :=
| BaseAlgorithm (ref : nat)
| BasePolicy (ref : nat).

Definition isinstance_BaseAlgorithm (o : rl_object) : bool :=
  match o with BaseAlgorithm _ => true | BasePolicy _ => false end.

(** The state of a [numpy.random.Generator]. *)
Definition rng : Type := Z.

(** [GenTrajTerminationFn]: a predicate over the trajectories collected so far. *)
Definition criterion : Type := list trajectory → bool.

(** [Mapping[str, float]]; rationals stand for the floats. *)
Abbreviation stats := (gmap string Q).

(** ** The program monad *)

(** The calls [eval_policy] makes into other modules. *)
Inductive call : Type :=
| MakeRng                                   (* common.make_rng() *)
| MakeMinEpisodes (n : Z)                   (* rollout.make_min_episodes(n) *)
| SetEnv (algo : nat) (venv : vec_env)      (* rl_algo.set_env(venv) *)
| GetEnv (algo : nat)                       (* rl_algo.get_env() *)
| GenerateTrajectories (policy : rl_object) (venv : vec_env)
    (sample_until : criterion) (rng : rng)  (* rollout.generate_trajectories(...) *)
| RolloutStats (trajs : list trajectory).   (* rollout.rollout_stats(trajs) *)

(** What each call answers. *)
Definition answer (c : call) : Type :=
  match c with
  | MakeRng => rng
  | MakeMinEpisodes _ => criterion
  | SetEnv _ _ => unit
  | GetEnv _ => vec_env
  | GenerateTrajectories _ _ _ _ => list trajectory
  | RolloutStats _ => stats
  end.

(** Function bodies: return a value, call a collaborator and go on with its
    answer, or run a [try] block with its [except] clause.  [eval_policy]
    has no [try]; the construct is part of the language so that the absence
    of local error handling is a property of the function and not of the
    language it is written in. *)
Inductive prog (R : Type) : Type :=
| Done (r : R)
| Invoke (c : call) (k : answer c → prog R)
| TryExcept {X : Type} (body : prog X) (except : exn → prog X) (k : X → prog R).
Arguments Done {R} r.
Arguments Invoke {R} c k.
Arguments TryExcept {R X} body except k.

Fixpoint prog_bind {A B : Type} (f : A → prog B) (p : prog A) : prog B :=
  match p with
  | Done a => f a
  | Invoke c k => Invoke c (fun x => prog_bind f (k x))
  | TryExcept body except k => TryExcept body except (fun x => prog_bind f (k x))
  end.

#[global] Instance prog_ret : MRet prog := @Done.
#[global] Instance prog_mbind : MBind prog := @prog_bind.

Definition invoke (c : call) : prog (answer c) := Invoke c Done.

(** The collaborators under the names the source calls them by. *)
Module common.
Definition make_rng : prog rng := invoke MakeRng.
End common.

Module rollout.
Definition make_min_episodes (n : Z) : prog criterion := invoke (MakeMinEpisodes n).
Definition generate_trajectories (policy : rl_object) (venv : vec_env)
    (sample_until : criterion) (rng : rng) : prog (list trajectory) :=
  invoke (GenerateTrajectories policy venv sample_until rng).
Definition rollout_stats (trajs : list trajectory) : prog stats :=
  invoke (RolloutStats trajs).
End rollout.

Module base_class.
Definition set_env (rl_algo : nat) (venv : vec_env) : prog unit :=
  invoke (SetEnv rl_algo venv).
Definition get_env (rl_algo : nat) : prog vec_env := invoke (GetEnv rl_algo).
End base_class.

(** ** [eval_policy] *)

Definition eval_policy (rl_algo : rl_object) (venv : vec_env) (n_episodes_eval : Z)
  : prog stats :=
  rng ← common.make_rng;
  sample_until_eval ← rollout.make_min_episodes n_episodes_eval;
  train_env ← match rl_algo with
              | BaseAlgorithm algo =>
                  base_class.set_env algo venv ;;
                  base_class.get_env algo
              | BasePolicy _ => mret venv
              end;
  trajs ← rollout.generate_trajectories rl_algo train_env sample_until_eval rng;
  rollout.rollout_stats trajs.

(** ** The heap *)

(** A policy object: the action-selection contract.  [predict] answers
    [None] for an observation outside the policy's observation space. *)
Record policy : Type := Policy {
  predict : observation → rng → option (action * rng);
}.

(** A training-algorithm object: its policy, the wrappers its environment
    handling adds, its check of an environment's spaces, and [self.env]. *)
Record algorithm : Type := Algorithm {
  alg_policy : policy;
  alg_wrappers : list nat;
  alg_accepts : vec_env → bool;
  alg_env : option vec_env;
}.

(** What a vectorised environment does: the number of parallel instances,
    the state an instance is reset to, what is observed of a state, one step
    of one instance (next state, reward, episode over), and the secondary
    reward of a step when a monitor is attached. *)
Record env_class : Type := EnvClass {
  num_envs : nat;
  reset_state : nat → Z;
  observe : Z → observation;
  step_instance : Z → action → Z * reward * bool;
  monitor : option (Z → action → reward);
}.

(** An environment object: its behaviour and the current state of each of
    its instances. *)
Record env_object : Type := EnvObject {
  env_cls : env_class;
  env_states : list Z;
}.

Record heap : Type := Heap {
  seed : Z;                          (* the seed held by the configuration scope *)
  algorithms : gmap nat algorithm;
  policies : gmap nat policy;
  envs : gmap nat env_object;
}.

(** ** [BaseAlgorithm.set_env] and [BaseAlgorithm.get_env] *)

Module sb3.

(** Modelled from the spec: [BaseAlgorithm] belongs to stable_baselines3
    and is not under src/.  The algorithm's environment reference is the
    supplied environment, possibly augmented with the algorithm's own
    wrappers. *)
Definition wrap_env (alg : algorithm) (venv : vec_env) : vec_env :=
  foldr VecEnvWrapper venv (alg_wrappers alg).

(** Modelled from the spec: [set_env] is not under src/.  It replaces the
    algorithm's environment reference with (the wrapped form of) the
    supplied environment, and fails when the environment's spaces do not
    fit the algorithm. *)
Definition set_env (algo : nat) (venv : vec_env) (h : heap) : heap * outcome unit :=
  match algorithms h !! algo with
  | None => (h, Raise (AttributeError "set_env"))
  | Some alg =>
      if alg_accepts alg venv
      then (Heap (seed h)
              (<[algo := Algorithm (alg_policy alg) (alg_wrappers alg)
                           (alg_accepts alg) (Some (wrap_env alg venv))]> (algorithms h))
              (policies h) (envs h),
            Return ())
      else (h, Raise (ValueError "spaces do not match"))
  end.

(** Modelled from the spec: [get_env] is not under src/.  It reports the
    algorithm's current environment reference.  (An algorithm without an
    environment does not occur after [set_env].) *)
Definition get_env (algo : nat) (h : heap) : heap * outcome vec_env :=
  match algorithms h !! algo with
  | Some alg =>
      match alg_env alg with
      | Some e => (h, Return e)
      | None => (h, Raise (AttributeError "env"))
      end
  | None => (h, Raise (AttributeError "get_env"))
  end.

End sb3.

(** ** Running a program *)

(** The modules of this repository that [eval_policy] calls and that are not
    part of this file: each call transforms the heap and returns, raises or
    keeps running. *)
Record collaborators : Type := Collaborators {
  on_make_rng : heap → heap * outcome rng;
  on_make_min_episodes : Z → heap → heap * outcome criterion;
  on_generate_trajectories :
    rl_object → vec_env → criterion → rng → heap → heap * outcome (list trajectory);
  on_rollout_stats : list trajectory → heap → heap * outcome stats;
}.

Definition handle (C : collaborators) (c : call) : heap → heap * outcome (answer c) :=
  match c with
  | MakeRng => on_make_rng C
  | MakeMinEpisodes n => on_make_min_episodes C n
  | SetEnv algo venv => sb3.set_env algo venv
  | GetEnv algo => sb3.get_env algo
  | GenerateTrajectories policy venv sample_until g =>
      on_generate_trajectories C policy venv sample_until g
  | RolloutStats trajs => on_rollout_stats C trajs
  end.

(** How a call ended. *)
Inductive status : Type :=
| Returned
| Raised (e : exn)
| Unfinished.

(** An execution: the heap it leaves, the calls it made in order, each with
    how it ended, and its own outcome. *)
Record execution (R : Type) : Type := Execution {
  final : heap;
  calls : list (call * status);
  result : outcome R;
}.
Arguments Execution {R} final calls result.
Arguments final {R} e.
Arguments calls {R} e.
Arguments result {R} e.

Definition status_of {X} (o : outcome X) : status :=
  match o with
  | Return _ => Returned
  | Raise e => Raised e
  | Diverge => Unfinished
  end.

(** One call: the collaborator transforms the heap, and the call is recorded
    with how it ended. *)
Definition perform (C : collaborators) (c : call) (h : heap) : execution (answer c) :=
  let '(h1, o) := handle C c h in Execution h1 [(c, status_of o)] o.

(** [after log ex]: the execution [ex], preceded by the calls of [log]. *)
Definition after {R} (log : list (call * status)) (ex : execution R) : execution R :=
  Execution (final ex) (log ++ calls ex) (result ex).

(** Sequencing: the rest runs only after a normal return, from the heap the
    first part left.  An exception leaves the heap as it is at the raise:
    nothing is rolled back. *)
Definition then_run {X R} (ex1 : execution X) (k : X → heap → execution R) : execution R :=
  match result ex1 with
  | Return x => after (calls ex1) (k x (final ex1))
  | Raise e => Execution (final ex1) (calls ex1) (Raise e)
  | Diverge => Execution (final ex1) (calls ex1) Diverge
  end.

(** [try: ... except: ...]: the clause runs only after a raise. *)
Definition catch {X} (ex1 : execution X) (except : exn → heap → execution X) : execution X :=
  match result ex1 with
  | Raise e => after (calls ex1) (except e (final ex1))
  | _ => ex1
  end.

Fixpoint run (C : collaborators) {R : Type} (p : prog R) (h : heap) : execution R :=
  match p with
  | Done r => Execution h [] (Return r)
  | Invoke c k => then_run (perform C c h) (fun x h1 => run C (k x) h1)
  | TryExcept body except k =>
      then_run (catch (run C body h) (fun e h1 => run C (except e) h1))
        (fun x h1 => run C (k x) h1)
  end.

(** The calls of an execution, without how they ended. *)
Definition called {R} (ex : execution R) : list call := (calls ex).*1.

Definition is_set_env (c : call) : bool :=
  match c with SetEnv _ _ => true | _ => false end.
Definition is_get_env (c : call) : bool :=
  match c with GetEnv _ => true | _ => false end.
Definition is_rollout_stats (c : call) : bool :=
  match c with RolloutStats _ => true | _ => false end.
Definition is_generate_trajectories (c : call) : bool :=
  match c with GenerateTrajectories _ _ _ _ => true | _ => false end.

(** ** The rollout library *)

Module RolloutModel.

(** Modelled from the spec: [common.make_rng] is not under src/.  The
    random source is obtained from the shared configuration scope at call
    time, seeded with the scope's seed. *)
Definition make_rng (h : heap) : heap * outcome rng := (h, Return (seed h)).

(** The two behaviours the spec documents for a target episode count that
    is not positive: an explicit rejection, or a criterion that no set of
    trajectories ever satisfies. *)
Inductive degenerate : Type := Rejects | Blocks.

(** Modelled from the spec: [rollout.make_min_episodes] is not under src/.
    The criterion is: stop once at least [n] episodes have completed.  For
    [n ≤ 0] the spec leaves two behaviours open, selected by [d]. *)
Definition make_min_episodes (d : degenerate) (n : Z) (h : heap)
  : heap * outcome criterion :=
  if bool_decide (n ≤ 0)
  then match d with
       | Rejects => (h, Raise (AssertionError "n >= 1"))
       | Blocks => (h, Return (fun _ => false))
       end
  else (h, Return (fun trajs => bool_decide (n ≤ Z.of_nat (length trajs)))).

(** An instance during generation: its state and the steps of its episode
    so far. *)
Definition instance : Type := Z * trajectory.

(** One step of instance [i].  When the episode is over the trajectory is
    handed out and the instance starts afresh. *)
Definition step_one (cls : env_class) (pi : policy) (i : nat) (inst : instance) (g : rng)
  : option (instance * option trajectory * rng) :=
  let '(s, partial) := inst in
  match predict pi (observe cls s) g with
  | None => None
  | Some (a, g') =>
      let '(s', r, d) := step_instance cls s a in
      let t := Transition (observe cls s) a r d ((fun m => m s a) <$> monitor cls) in
      Some (if d then (reset_state cls i, [], Some (partial ++ [t]), g')
            else (s', partial ++ [t], None, g'))
  end.

(** One step of all instances, from instance [i] on. *)
Fixpoint step_all (cls : env_class) (pi : policy) (i : nat) (insts : list instance) (g : rng)
  : option (list instance * list trajectory * rng) :=
  match insts with
  | [] => Some ([], [], g)
  | inst :: rest =>
      match step_one cls pi i inst g with
      | None => None
      | Some (inst', fin, g1) =>
          match step_all cls pi (S i) rest g1 with
          | None => None
          | Some (rest', fins, g2) => Some (inst' :: rest', option_list fin ++ fins, g2)
          end
      end
  end.

(** The generation loop: step all instances, collect the episodes that
    completed, stop once the criterion holds of what was collected. *)
Fixpoint collect (fuel : nat) (cls : env_class) (pi : policy) (sample_until : criterion)
    (insts : list instance) (trajs : list trajectory) (g : rng)
  : list instance * outcome (list trajectory) :=
  match fuel with
  | O => (insts, Diverge)
  | S fuel' =>
      match step_all cls pi 0 insts g with
      | None => (insts, Raise (ValueError "observation outside the policy's space"))
      | Some (insts', fins, g') =>
          let trajs' := trajs ++ fins in
          if sample_until trajs' then (insts', Return trajs')
          else collect fuel' cls pi sample_until insts' trajs' g'
      end
  end.

(** The policy that selects the actions: the object itself, or the policy
    of the algorithm. *)
Definition policy_of (rl : rl_object) (h : heap) : option policy :=
  match rl with
  | BaseAlgorithm algo => alg_policy <$> algorithms h !! algo
  | BasePolicy p => policies h !! p
  end.

(** [venv.reset()] *)
Definition reset (cls : env_class) : list instance :=
  (fun i => (reset_state cls i, [])) <$> seq 0 (num_envs cls).

Definition with_env_states (h : heap) (id : nat) (cls : env_class) (insts : list instance)
  : heap :=
  Heap (seed h) (algorithms h) (policies h)
    (<[id := EnvObject cls (insts.*1)]> (envs h)).

(** Modelled from the spec: [rollout.generate_trajectories] is not under
    src/.  The environment is reset, then trajectories are generated in a
    loop, stepping all parallel instances simultaneously and collecting
    completed episodes until the stopping criterion is satisfied.  What a
    wrapper does to the observations is not described and not modelled:
    a wrapped environment steps as the environment it wraps. *)
Definition generate_trajectories (fuel : nat) (rl : rl_object) (venv : vec_env)
    (sample_until : criterion) (g : rng) (h : heap)
  : heap * outcome (list trajectory) :=
  match policy_of rl h, envs h !! unwrapped venv with
  | Some pi, Some env =>
      let cls := env_cls env in
      let '(insts, o) := collect fuel cls pi sample_until (reset cls) [] g in
      (with_env_states h (unwrapped venv) cls insts, o)
  | _, _ => (h, Raise (AttributeError "malformed policy or environment"))
  end.

Definition sum_Z (l : list Z) : Z := foldr Z.add 0 l.

Definition mean (l : list Z) : Q :=
  Qred (Qmake (sum_Z l) (Pos.of_nat (length l))).

Definition min_Z (l : list Z) : Z :=
  match l with [] => 0 | x :: l' => foldr Z.min x l' end.
Definition max_Z (l : list Z) : Z :=
  match l with [] => 0 | x :: l' => foldr Z.max x l' end.

(** The return of each episode under the environment's own reward. *)
Definition episode_returns (trajs : list trajectory) : list Z :=
  (fun t => sum_Z (rew <$> t)) <$> trajs.

(** The return of each episode under the secondary reward, for the
    episodes all of whose steps carry one. *)
Definition monitor_returns (trajs : list trajectory) : list Z :=
  omap (fun t : trajectory => sum_Z <$> mapM info t) trajs.

Definition describe (name : string) (l : list Z) : stats :=
  {[ name +:+ "_mean" := mean l;
     name +:+ "_min" := inject_Z (min_Z l);
     name +:+ "_max" := inject_Z (max_Z l) ]}.

(** Modelled from the spec: [rollout.rollout_stats] is not under src/.
    An aggregation over a set of trajectories: the count and the mean,
    minimum and maximum of the episode returns, for the environment's own
    reward and for any secondary reward attached to the environment.  It
    fails on an empty set.  The names of the keys are the model's, the
    source names only "monitor_return". *)
Definition rollout_stats (trajs : list trajectory) (h : heap) : heap * outcome stats :=
  match trajs with
  | [] => (h, Raise (AssertionError "len(trajectories) > 0"))
  | _ :: _ =>
      let base : stats :=
        <["n_traj" := inject_Z (Z.of_nat (length trajs))]>
          (describe "return" (episode_returns trajs)) in
      let mon := monitor_returns trajs in
      (h, Return
            match mon with
            | [] => base
            | _ :: _ =>
                base ∪ <["monitor_return_len" := inject_Z (Z.of_nat (length mon))]>
                         (describe "monitor_return" mon)
            end)
  end.

Definition model (d : degenerate) (fuel : nat) : collaborators :=
  Collaborators make_rng (make_min_episodes d) (generate_trajectories fuel) rollout_stats.

(** Modelled from the spec: a [make_rng] that makes a fresh draw from the
    configuration scope.  The source it hands out is seeded with the
    scope's seed, and the scope moves on to its next seed. *)
Definition draw_rng (h : heap) : heap * outcome rng :=
  (Heap ((5 * seed h + 1) mod 16) (algorithms h) (policies h) (envs h), Return (seed h)).

Definition drawing_model (d : degenerate) (fuel : nat) : collaborators :=
  Collaborators draw_rng (make_min_episodes d) (generate_trajectories fuel) rollout_stats.

End RolloutModel.

(** ** A trivial environment *)

(** One instance; every step has reward [1]; an episode lasts exactly five
    steps.  The state is the number of steps taken. *)
Definition five_steps : env_class :=
  EnvClass 1 (fun _ => 0) (fun s => s) (fun s _ => (s + 1, 1, bool_decide (s + 1 = 5))) None.

Definition constant_policy : policy := Policy (fun _ g => Some (0, g)).

Definition trivial_heap : heap :=
  Heap 0
    {[ 0%nat := Algorithm constant_policy [7%nat] (fun _ => true) None ]}
    {[ 1%nat := constant_policy ]}
    {[ 0%nat := EnvObject five_steps [3] ]}.

(** A second trivial environment: two instances that start at different
    states, episodes of at most three steps, and a monitor that reports the
    double of the reward. *)
Definition countdown : env_class :=
  EnvClass 2 (fun i => Z.of_nat i + 2) (fun s => s)
    (fun s a => (s - 1, s + a, bool_decide (s - 1 ≤ 0)))
    (Some (fun s a => 2 * (s + a))).

(** A policy whose observation space is the non-negative numbers, and that
    draws its action from the random source. *)
Definition random_policy : policy :=
  Policy (fun o g => if bool_decide (0 ≤ o) then Some (g mod 3, (5 * g + 1) mod 16) else None).

Definition sample_heap : heap :=
  Heap 11
    {[ 0%nat := Algorithm random_policy [7%nat; 8%nat] (fun e => bool_decide (unwrapped e = 1%nat))
                  (Some (VecEnvWrapper 9 (VecEnv 5))) ]}
    {[ 1%nat := constant_policy; 2%nat := random_policy ]}
    {[ 0%nat := EnvObject five_steps [3]; 1%nat := EnvObject countdown [0; 0] ]}.

(** The same objects in another state: the algorithm holds another
    environment, the instances of the environments are elsewhere. *)
Definition sample_heap_later : heap :=
  Heap 11
    {[ 0%nat := Algorithm random_policy [7%nat; 8%nat] (fun e => bool_decide (unwrapped e = 1%nat))
                  None ]}
    {[ 1%nat := constant_policy; 2%nat := random_policy ]}
    {[ 0%nat := EnvObject five_steps [1]; 1%nat := EnvObject countdown [2; 1] ]}.

(** A policy whose observation space is everything, and that draws its
    action from the random source. *)
Definition drawing_policy : policy :=
  Policy (fun _ g => Some (g mod 3, (5 * g + 1) mod 16)).

(** An algorithm with that policy, which takes the environments over the
    base environment [1], and the countdown environment. *)
Definition bounded_heap : heap :=
  Heap 11
    {[ 0%nat := Algorithm drawing_policy [7%nat; 8%nat]
                  (fun e => bool_decide (unwrapped e = 1%nat))
                  (Some (VecEnvWrapper 9 (VecEnv 5))) ]}
    {[ 1%nat := drawing_policy ]}
    {[ 1%nat := EnvObject countdown [0; 0] ]}.

(** ** Properties of heaps and collaborators used in the statements *)

(** [I] is kept by every call into the rollout library and by [make_rng]. *)
Definition kept_by_rollout (C : collaborators) (I : heap → Prop) : Prop :=
  (∀ h, I h → I (on_make_rng C h).1) ∧
  (∀ n h, I h → I (on_make_min_episodes C n h).1) ∧
  (∀ rl e su g h, I h → I (on_generate_trajectories C rl e su g h).1) ∧
  (∀ trajs h, I h → I (on_rollout_stats C trajs h).1).

(** Generating trajectories and computing statistics leave the algorithm
    objects alone. *)
Definition keeps_algorithms (C : collaborators) : Prop :=
  (∀ rl e su g h, algorithms (on_generate_trajectories C rl e su g h).1 = algorithms h) ∧
  (∀ trajs h, algorithms (on_rollout_stats C trajs h).1 = algorithms h).

(** The environment reference the algorithm object [algo] holds in [h]. *)
Definition env_of (h : heap) (algo : nat) : option vec_env :=
  algorithms h !! algo ≫= alg_env.

(** Two algorithm objects that differ at most in the environment they hold. *)
Definition same_algorithm (a1 a2 : algorithm) : Prop :=
  alg_policy a1 = alg_policy a2 ∧
  alg_wrappers a1 = alg_wrappers a2 ∧
  alg_accepts a1 = alg_accepts a2.

(** Two heaps that hold the same objects and the same seed, and differ at
    most in what an evaluation overwrites: the environment each algorithm
    holds and the current state of the instances of each environment. *)
Definition same_inputs (h1 h2 : heap) : Prop :=
  seed h1 = seed h2 ∧
  policies h1 = policies h2 ∧
  (∀ a, option_Forall2 same_algorithm (algorithms h1 !! a) (algorithms h2 !! a)) ∧
  (∀ id, env_cls <$> envs h1 !! id = env_cls <$> envs h2 !! id).

(** A completed episode: its last step, and no step before, is final. *)
Definition completed (t : trajectory) : bool :=
  match reverse t with
  | [] => false
  | x :: before => done x && forallb (fun y => negb (done y)) before
  end.

(** The keys of a statistics block. *)
Definition return_keys : gset string :=
  {[ "n_traj"; "return_mean"; "return_min"; "return_max" ]}.
Definition monitor_keys : gset string :=
  {[ "monitor_return_len"; "monitor_return_mean"; "monitor_return_min"; "monitor_return_max" ]}.

(** The keys of the statistics of episodes of an environment of class [cls]. *)
Definition stats_keys (cls : env_class) : gset string :=
  match monitor cls with
  | None => return_keys
  | Some _ => return_keys ∪ monitor_keys
  end.

(** An environment whose episodes last at most [horizon + 1] steps:
    [remaining] bounds the steps an instance still takes, and an instance
    starts with at most [horizon] of them. *)
Definition bounded_episodes (cls : env_class) (remaining : Z → nat) (horizon : nat) : Prop :=
  (∀ i, (i < num_envs cls)%nat → (remaining (reset_state cls i) ≤ horizon)%nat) ∧
  (∀ s a, let '(s', _, d) := step_instance cls s a in
          d = true ∨ (remaining s' < remaining s)%nat).

(** A policy whose observation space is everything. *)
Definition total_policy (pi : policy) : Prop :=
  ∀ o g, is_Some (predict pi o g).

(** The steps of [t] carry a secondary reward exactly when the class has a
    monitor. *)
Definition monitored_like (cls : env_class) (t : trajectory) : Prop :=
  Forall (fun x => is_Some (info x) ↔ is_Some (monitor cls)) t.

(** An episode in progress: none of its steps so far is final. *)
Definition in_progress (t : trajectory) : Prop :=
  Forall (fun x => done x = false) t.

(** The instances during a generation over [cls]. *)
Definition generating (cls : env_class) (insts : list RolloutModel.instance) : Prop :=
  Forall (fun inst => in_progress inst.2 ∧ monitored_like cls inst.2) insts.

(** The episodes a generation over [cls] collects. *)
Definition collected (cls : env_class) (trajs : list trajectory) : Prop :=
  Forall (fun t => completed t = true ∧ monitored_like cls t) trajs.

(** [walk cls s t s']: the steps of [t] are the steps an instance of [cls]
    takes from the state [s] to the state [s'], each with the observation,
    the reward and the termination flag of the environment. *)
Fixpoint walk (cls : env_class) (s : Z) (t : trajectory) (s' : Z) : Prop :=
  match t with
  | [] => s' = s
  | x :: t' =>
      obs x = observe cls s ∧
      ∃ s1, step_instance cls s (act x) = (s1, rew x, done x) ∧ walk cls s1 t' s'
  end.

(** An episode of [cls]: the steps of an instance from one of its initial
    states. *)
Definition episode_of (cls : env_class) (t : trajectory) : Prop :=
  ∃ i s', walk cls (reset_state cls i) t s'.

(** The instances during a generation over [cls] are each on an episode of
    [cls]. *)
Definition on_episodes (cls : env_class) (insts : list RolloutModel.instance) : Prop :=
  Forall (fun inst => ∃ i, walk cls (reset_state cls i) inst.2 inst.1) insts.

(** The object passed for evaluation takes the environment: an algorithm
    is one whose [set_env] accepts it; a bare policy is not asked. *)
Definition environment_accepted (rl_algo : rl_object) (venv : vec_env) (h : heap) : Prop :=
  match rl_algo with
  | BaseAlgorithm algo =>
      ∃ alg, algorithms h !! algo = Some alg ∧ alg_accepts alg venv = true
  | BasePolicy _ => True
  end.

(** A stage of an execution that depends on the inputs only: from two heaps
    with the same inputs it makes the same calls with the same outcomes and
    leaves two heaps with the same inputs. *)
Definition respects_inputs {X} (stage : heap → execution X) : Prop :=
  ∀ h1 h2, same_inputs h1 h2 →
    result (stage h1) = result (stage h2) ∧
    calls (stage h1) = calls (stage h2) ∧
    same_inputs (final (stage h1)) (final (stage h2)).

(** A stage that leaves the inputs as they are. *)
Definition keeps_inputs {X} (stage : heap → execution X) : Prop :=
  ∀ h, same_inputs h (final (stage h)).

(** How the environment for generation was obtained, from the heap [h2] to
    the heap [h3]. *)
Definition environment_obtained (rl_algo : rl_object) (venv : vec_env) (h2 h3 : heap)
    (train_env : vec_env) : Prop :=
  match rl_algo with
  | BaseAlgorithm algo =>
      ∃ u, sb3.set_env algo venv h2 = (h3, Return u) ∧
           sb3.get_env algo h3 = (h3, Return train_env)
  | BasePolicy _ => h3 = h2 ∧ train_env = venv
  end.

(** Collaborators that depend on the inputs only: each call into the
    rollout library or to [make_rng], made from two heaps with the same
    inputs, ends the same way and leaves two heaps with the same inputs. *)
Definition collaborators_respect_inputs (C : collaborators) : Prop :=
  ∀ c, is_set_env c = false → is_get_env c = false →
  ∀ h1 h2, same_inputs h1 h2 →
    (handle C c h1).2 = (handle C c h2).2 ∧
    same_inputs (handle C c h1).1 (handle C c h2).1.

(** Collaborators that leave the inputs as they are. *)
Definition collaborators_keep_inputs (C : collaborators) : Prop :=
  ∀ c, is_set_env c = false → is_get_env c = false →
  ∀ h, same_inputs h (handle C c h).1.

(** The environment a call of [generate_trajectories] was given. *)
Definition generation_env (c : call) : option vec_env :=
  match c with
  | GenerateTrajectories _ venv _ _ => Some venv
  | _ => None
  end.

(** A program that does catch: the contrast to [eval_policy]. *)
Definition stats_or_empty (trajs : list trajectory) : prog stats :=
  TryExcept (rollout.rollout_stats trajs) (fun _ => mret (∅ : stats)) mret.

(** [suppress_sacred_error(policy_kwargs)]: a function without a body; it
    returns [None] whatever it is given. *)
Definition suppress_sacred_error {K : Type} (policy_kwargs : K) : prog unit := mret ().

(** The calls of a complete evaluation, in the order of the source. *)
Definition call_sequence (rl_algo : rl_object) (venv : vec_env) (n : Z)
    (train_env : vec_env) (sample_until : criterion) (g : rng) (trajs : list trajectory)
  : list call :=
  [MakeRng; MakeMinEpisodes n] ++
  match rl_algo with
  | BaseAlgorithm algo => [SetEnv algo venv; GetEnv algo]
  | BasePolicy _ => []
  end ++
  [GenerateTrajectories rl_algo train_env sample_until g; RolloutStats trajs].

(** * Properties *)

(** ** The configuration hook *)

Lemma config_hook_of_kwargs {C L} (config : Py.val) (command_name : C) (logger : L)
    (policy_kwargs : gmap string Py.val) :
  train_policy_kwargs config = Return (Py.Dict policy_kwargs) →
  config_hook config command_name logger =
    Return (if bool_decide ("features_extractor_class" ∈ dom policy_kwargs)
            then Py.Dict ∅
            else Py.Dict {[ "policy_kwargs" := NORMALIZE_RUNNING_POLICY_KWARGS ]}).
Proof.
  unfold train_policy_kwargs, config_hook. intros H.
  destruct (Py.getitem config "train") as [train|e|]; cbn in *; try discriminate.
  rewrite H; cbn. by case_bool_decide.
Qed.

(** C10. Whenever [config["train"]["policy_kwargs"]] is a dictionary,
    [config_hook] returns [{"policy_kwargs": NORMALIZE_RUNNING_POLICY_KWARGS}]
    if and only if the key "features_extractor_class" is absent from that
    dictionary, and returns the empty mapping when the key is present: no
    entry of the configuration is then set. *)
Theorem config_hook_default_iff_absent {C L} (config : Py.val) (command_name : C)
    (logger : L) (policy_kwargs : gmap string Py.val) :
  train_policy_kwargs config = Return (Py.Dict policy_kwargs) →
  (config_hook config command_name logger =
     Return (Py.Dict {[ "policy_kwargs" := NORMALIZE_RUNNING_POLICY_KWARGS ]})
   ↔ "features_extractor_class" ∉ dom policy_kwargs)
  ∧ ("features_extractor_class" ∈ dom policy_kwargs →
     config_hook config command_name logger = Return (Py.Dict ∅)).
Proof.
  intros H. rewrite (config_hook_of_kwargs _ _ _ _ H).
  case_bool_decide as Hin.
  - split; [split|done]; [|done].
    intros Heq.
    apply (f_equal (fun o => match o with Return (Py.Dict d) => size d | _ => 0%nat end)) in Heq.
    vm_compute in Heq. discriminate.
  - split; [done|]. by intros ?.
Qed.

Lemma config_hook_default_iff_absent_witness :
  config_hook (Py.Dict {[ "train" := Py.Dict config ]}) "train_rl" () =
    Return (Py.Dict {[ "policy_kwargs" := NORMALIZE_RUNNING_POLICY_KWARGS ]}).
Proof.
  apply (config_hook_default_iff_absent _ "train_rl" () ∅); [reflexivity|].
  rewrite dom_empty_L. apply not_elem_of_empty.
Defined.

Example config_hook_normalize_disable :
  config_hook (Py.Dict {[ "train" := Py.Dict (normalize_disable ∪ config) ]}) "train_rl" ()
  = Return (Py.Dict ∅).
Proof. vm_compute. reflexivity. Qed.

Example config_hook_no_train_section :
  config_hook (Py.Dict config) "train_rl" () = Raise (KeyError "train").
Proof. reflexivity. Qed.

(** ** Running programs *)

Section Running.
Context (C : collaborators).

Lemma after_nil {R} (ex : execution R) : after [] ex = ex.
Proof. by destruct ex. Qed.

Lemma after_after {R} l1 l2 (ex : execution R) : after l1 (after l2 ex) = after (l1 ++ l2) ex.
Proof. unfold after; cbn. by rewrite app_assoc. Qed.

Lemma then_run_after {X R} l (ex : execution X) (k : X → heap → execution R) :
  then_run (after l ex) k = after l (then_run ex k).
Proof.
  unfold then_run; cbn. destruct (result ex); cbn; try done.
  by rewrite after_after.
Qed.

Lemma then_run_assoc {X Y R} (ex : execution X) (k1 : X → heap → execution Y)
    (k2 : Y → heap → execution R) :
  then_run (then_run ex k1) k2 = then_run ex (fun x h => then_run (k1 x h) k2).
Proof.
  unfold then_run at 2 3. destruct (result ex); try done.
  apply then_run_after.
Qed.

Lemma then_run_ext {X R} (ex : execution X) (k1 k2 : X → heap → execution R) :
  (∀ x h, k1 x h = k2 x h) → then_run ex k1 = then_run ex k2.
Proof. intros Hk. unfold then_run. destruct (result ex); by rewrite ?Hk. Qed.

(** The interpreter is a monad morphism: running [p ≫= f] is running [p]
    and then [f] of its value. *)
Lemma run_bind {A B} (p : prog A) (f : A → prog B) h :
  run C (p ≫= f) h = then_run (run C p h) (fun x h1 => run C (f x) h1).
Proof.
  revert h. induction p as [R r|R c k IH|R X body _ except _ k IH]; intros h.
  - cbn. unfold then_run; cbn. by rewrite after_nil.
  - change (run C (Invoke c k ≫= f) h) with
      (then_run (perform C c h) (fun x h1 => run C (k x ≫= f) h1)).
    cbn [run]. rewrite then_run_assoc. apply then_run_ext. intros; apply IH.
  - change (run C (TryExcept body except k ≫= f) h) with
      (then_run (catch (run C body h) (fun e h1 => run C (except e) h1))
         (fun x h1 => run C (k x ≫= f) h1)).
    cbn [run]. rewrite then_run_assoc. apply then_run_ext. intros; apply IH.
Qed.

Lemma then_run_done {X} (ex : execution X) :
  then_run ex (fun x h => Execution h [] (Return x)) = ex.
Proof.
  destruct ex as [h l [x|e|]]; unfold then_run, after; cbn; try done.
  by rewrite app_nil_r.
Qed.

Lemma run_invoke c h : run C (invoke c) h = perform C c h.
Proof. apply then_run_done. Qed.

(** What [eval_policy] does, call by call. *)
Lemma run_eval_policy rl_algo venv n h :
  run C (eval_policy rl_algo venv n) h =
    then_run (perform C MakeRng h) (fun g h1 =>
    then_run (perform C (MakeMinEpisodes n) h1) (fun sample_until h2 =>
    then_run
      match rl_algo with
      | BaseAlgorithm algo =>
          then_run (perform C (SetEnv algo venv) h2) (fun _ h' => perform C (GetEnv algo) h')
      | BasePolicy _ => Execution h2 [] (Return venv)
      end
      (fun train_env h3 =>
    then_run (perform C (GenerateTrajectories rl_algo train_env sample_until g) h3)
      (fun trajs h4 => perform C (RolloutStats trajs) h4)))).
Proof.
  unfold eval_policy.
  cbn [mbind prog_mbind prog_bind common.make_rng rollout.make_min_episodes invoke run].
  apply then_run_ext; intros g h1.
  apply then_run_ext; intros su h2.
  rewrite run_bind.
  assert (run C match rl_algo with
                | BaseAlgorithm algo =>
                    base_class.set_env algo venv ;; base_class.get_env algo
                | BasePolicy _ => mret venv
                end h2 =
          match rl_algo with
          | BaseAlgorithm algo =>
              then_run (perform C (SetEnv algo venv) h2)
                (fun _ h' => perform C (GetEnv algo) h')
          | BasePolicy _ => Execution h2 [] (Return venv)
          end) as ->.
  { destruct rl_algo as [algo|p]; [|done].
    cbn [mbind prog_mbind prog_bind base_class.set_env base_class.get_env invoke run].
    apply then_run_ext; intros. apply then_run_done. }
  apply then_run_ext; intros train_env h3.
  cbn [mbind prog_mbind prog_bind rollout.generate_trajectories rollout.rollout_stats
         invoke run].
  apply then_run_ext; intros. apply then_run_done.
Qed.

(** A returned call is followed by the rest; a call that raised or did not
    finish ends the execution. *)
Lemma then_run_perform {R} c h (k : answer c → heap → execution R) :
  then_run (perform C c h) k =
    match handle C c h with
    | (h1, Return x) => after [(c, Returned)] (k x h1)
    | (h1, Raise e) => Execution h1 [(c, Raised e)] (Raise e)
    | (h1, Diverge) => Execution h1 [(c, Unfinished)] Diverge
    end.
Proof. unfold perform. by destruct (handle C c h) as [h1 [x|e|]]. Qed.

Lemma perform_eq c h :
  perform C c h =
    match handle C c h with
    | (h1, Return x) => Execution h1 [(c, Returned)] (Return x)
    | (h1, Raise e) => Execution h1 [(c, Raised e)] (Raise e)
    | (h1, Diverge) => Execution h1 [(c, Unfinished)] Diverge
    end.
Proof. unfold perform. by destruct (handle C c h) as [h1 [x|e|]]. Qed.

End Running.

Ltac run_step :=
  first
    [ rewrite then_run_perform; cbn [handle]
    | rewrite perform_eq; cbn [handle]
    | progress cbn [then_run after final calls result app] ];
  try match goal with
      | |- context [match ?f ?h with pair _ _ => _ end] =>
          let E := fresh "E" in destruct (f h) as [? [?|?|]] eqn:E
      end.

(** Every way an evaluation can go: one goal per call that may raise or not
    finish, and one for the normal return. *)
Ltac run_cases := rewrite run_eval_policy; repeat run_step.

Ltac elem_of_log :=
  repeat match goal with
         | H : _ ∈ _ :: _ |- _ => apply elem_of_cons in H; destruct H as [H|H]
         | H : _ ∈ [] |- _ => by apply elem_of_nil in H
         | H : (_, _) = (_, _) |- _ => injection H as ??
         end.

Ltac in_log := repeat first [ apply list_elem_of_here | apply list_elem_of_further ].

(** Two equations for the same call on the same heap give the same answer. *)
Ltac same_answers :=
  repeat match goal with
         | H1 : ?x = _, H2 : ?x = _ |- _ => rewrite H1 in H2; simplify_eq
         end.

(** ** The environment of an algorithm *)

Lemma wrapped_form_of_refl venv : wrapped_form_of venv venv = true.
Proof. destruct venv; cbn; by rewrite bool_decide_eq_true_2. Qed.

Lemma wrapped_form_of_wrap_env alg venv : wrapped_form_of venv (sb3.wrap_env alg venv) = true.
Proof.
  unfold sb3.wrap_env. induction (alg_wrappers alg) as [|w ws IH]; cbn.
  - apply wrapped_form_of_refl.
  - rewrite IH. apply orb_true_r.
Qed.

Lemma set_env_returns algo venv h h' u :
  sb3.set_env algo venv h = (h', Return u) →
  ∃ alg, algorithms h !! algo = Some alg ∧ alg_accepts alg venv = true ∧
         env_of h' algo = Some (sb3.wrap_env alg venv) ∧
         seed h' = seed h ∧ policies h' = policies h ∧ envs h' = envs h.
Proof.
  unfold sb3.set_env, env_of. intros H.
  destruct (algorithms h !! algo) as [alg|] eqn:Halg; [|discriminate].
  destruct (alg_accepts alg venv) eqn:Hacc; [|discriminate].
  injection H as <- _. exists alg. cbn. by rewrite lookup_insert_eq.
Qed.

Lemma get_env_heap algo h : (sb3.get_env algo h).1 = h.
Proof. unfold sb3.get_env. by repeat case_match. Qed.

Lemma get_env_returns algo h h' e :
  sb3.get_env algo h = (h', Return e) → h' = h ∧ env_of h algo = Some e.
Proof.
  unfold sb3.get_env, env_of. intros H.
  destruct (algorithms h !! algo) as [alg|]; [|discriminate]. cbn.
  destruct (alg_env alg); [|discriminate]. by injection H as <- <-.
Qed.

(** After [set_env] has returned, [get_env] returns: the case of an
    algorithm without environment does not arise in [eval_policy]. *)
Lemma get_env_after_set_env algo venv h h' u :
  sb3.set_env algo venv h = (h', Return u) → returns (sb3.get_env algo h').2 = true.
Proof.
  intros (alg & _ & _ & Henv & _)%set_env_returns. unfold env_of in Henv.
  unfold sb3.get_env. destruct (algorithms h' !! algo) as [alg'|]; [|discriminate].
  cbn in Henv. by rewrite Henv.
Qed.

(** [get_env] leaves the heap as it is. *)
Ltac get_env_same_heap :=
  match goal with
  | E : sb3.get_env ?a ?h = (?h', _) |- _ =>
      assert (h' = h) by (pose proof (get_env_heap a h) as Hh; by rewrite E in Hh);
      subst h'
  end.

(** ** [eval_policy] over arbitrary collaborators *)

Section Evaluation.
Context (C : collaborators).

(** Statistics are only computed of trajectories that a call of
    [generate_trajectories] returned, after every earlier call returned. *)
Lemma rollout_stats_call_inv rl_algo venv n h trajs st :
  (RolloutStats trajs, st) ∈ calls (run C (eval_policy rl_algo venv n) h) →
  ∃ h1 g h2 su h3 train_env h4,
    on_make_rng C h = (h1, Return g) ∧
    on_make_min_episodes C n h1 = (h2, Return su) ∧
    environment_obtained rl_algo venv h2 h3 train_env ∧
    on_generate_trajectories C rl_algo train_env su g h3 = (h4, Return trajs) ∧
    (on_rollout_stats C trajs h4).1 = final (run C (eval_policy rl_algo venv n) h) ∧
    status_of (on_rollout_stats C trajs h4).2 = st.
Proof.
  destruct rl_algo; run_cases; intros H; elem_of_log; simplify_eq.
  all: try get_env_same_heap.
  all: do 7 eexists; unfold environment_obtained.
  all: repeat match goal with
              | |- _ ∧ _ => split
              | |- ∃ _, _ => eexists
              end; try eassumption; try reflexivity.
  all: match goal with E : on_rollout_stats _ _ _ = _ |- _ => by rewrite E end.
Qed.

(** An evaluation that returns has computed its value as the statistics of
    the trajectories it generated. *)
Lemma eval_policy_return_inv rl_algo venv n h s :
  result (run C (eval_policy rl_algo venv n) h) = Return s →
  ∃ h1 g h2 su h3 train_env h4 trajs,
    on_make_rng C h = (h1, Return g) ∧
    on_make_min_episodes C n h1 = (h2, Return su) ∧
    environment_obtained rl_algo venv h2 h3 train_env ∧
    on_generate_trajectories C rl_algo train_env su g h3 = (h4, Return trajs) ∧
    on_rollout_stats C trajs h4 = (final (run C (eval_policy rl_algo venv n) h), Return s) ∧
    called (run C (eval_policy rl_algo venv n) h) =
      [MakeRng; MakeMinEpisodes n] ++
      match rl_algo with
      | BaseAlgorithm algo => [SetEnv algo venv; GetEnv algo]
      | BasePolicy _ => []
      end ++
      [GenerateTrajectories rl_algo train_env su g; RolloutStats trajs].
Proof.
  unfold called.
  destruct rl_algo; run_cases; intros H; simplify_eq.
  all: try get_env_same_heap.
  all: do 8 eexists; unfold environment_obtained.
  all: repeat match goal with
              | |- _ ∧ _ => split
              | |- ∃ _, _ => eexists
              end; try eassumption; try reflexivity.
Qed.

(** An exception of [eval_policy] is the exception of its last call. *)
Lemma eval_policy_raise_inv rl_algo venv n h e :
  result (run C (eval_policy rl_algo venv n) h) = Raise e →
  ∃ c, last (calls (run C (eval_policy rl_algo venv n) h)) = Some (c, Raised e).
Proof. destruct rl_algo; run_cases; intros H; simplify_eq; by eexists. Qed.

(** The episode count is handed to [make_min_episodes] as it is. *)
Lemma eval_policy_first_calls rl_algo venv n h h1 g :
  on_make_rng C h = (h1, Return g) →
  ∃ rest, calls (run C (eval_policy rl_algo venv n) h) =
    (MakeRng, Returned) ::
    (MakeMinEpisodes n, status_of (on_make_min_episodes C n h1).2) :: rest.
Proof.
  intros E. destruct rl_algo; run_cases; simplify_eq;
    match goal with E : on_make_min_episodes _ _ _ = _ |- _ => rewrite E end;
    by eexists.
Qed.

(** C6. When [eval_policy] is given a bare policy, trajectory generation is
    only ever called with that policy and with the environment the caller
    passed, unwrapped and unreplaced; it is called as soon as [make_rng] and
    [make_min_episodes] have returned, and in particular in every
    evaluation that returns. *)
Theorem eval_policy_policy_uses_raw_env (p : nat) (venv : vec_env) (n : Z) (h : heap) :
  let ex := run C (eval_policy (BasePolicy p) venv n) h in
  (∀ rl e su g st, (GenerateTrajectories rl e su g, st) ∈ calls ex →
     rl = BasePolicy p ∧ e = venv) ∧
  (∀ h1 g h2 su,
     on_make_rng C h = (h1, Return g) →
     on_make_min_episodes C n h1 = (h2, Return su) →
     ∃ st, (GenerateTrajectories (BasePolicy p) venv su g, st) ∈ calls ex) ∧
  (∀ s, result ex = Return s →
     ∃ su g, (GenerateTrajectories (BasePolicy p) venv su g, Returned) ∈ calls ex).
Proof.
  cbn zeta. split; [|split].
  - intros rl e su g st. run_cases; intros H; elem_of_log; by simplify_eq.
  - intros h1 g h2 su E1 E2. run_cases; simplify_eq; same_answers; eexists; in_log.
  - intros s. run_cases; intros H; simplify_eq. do 2 eexists. in_log.
Qed.

(** The heap an execution leaves is the heap the recorded calls made: an
    invariant of every call on record is an invariant of the execution. *)
Lemma run_invariant {R} (p : prog R) (I : heap → Prop) (P : call → Prop) h :
  (∀ c h0, P c → I h0 → I (handle C c h0).1) →
  Forall P (called (run C p h)) → I h → I (final (run C p h)).
Proof.
  intros Hstep. revert h.
  assert (Hperform : ∀ c h, Forall P (called (perform C c h)) → I h →
            I (final (perform C c h))).
  { intros c h HP Hh. specialize (Hstep c h). unfold perform in *.
    destruct (handle C c h) as [h1 o]; cbn in *. apply Forall_cons in HP. destruct HP; auto. }
  assert (Hthen : ∀ X Y (ex : execution X) (k : X → heap → execution Y),
            (Forall P (called ex) → I (final ex)) →
            (∀ x, Forall P (called (k x (final ex))) → I (final ex) →
                  I (final (k x (final ex)))) →
            Forall P (called (then_run ex k)) → I (final (then_run ex k))).
  { intros X Y ex k H1 H2. unfold then_run, called, after.
    destruct (result ex); cbn; [|done..].
    rewrite fmap_app, Forall_app. intros [??]; auto. }
  induction p as [R r|R c k IH|R X body IHb except IHe k IH]; intros h; cbn [run].
  - done.
  - intros HP Hh. revert HP. apply Hthen; [naive_solver|]. intros; by apply IH.
  - intros HP Hh. revert HP. apply Hthen; [|intros; by apply IH].
    unfold catch, called, after. specialize (IHb h).
    destruct (result (run C body h)); cbn; [naive_solver| |naive_solver].
    rewrite fmap_app, Forall_app. intros [??]. apply IHe; naive_solver.
Qed.

(** C9. When [eval_policy] is given a bare policy it calls neither
    [set_env] nor [get_env] (the replacement of an environment happens on
    the algorithm branch only), and it changes nothing itself: whatever
    property of the heap the rollout collaborators keep, of the policy
    object, of the environment or of anything else, holds after the call
    if it held before. *)
Theorem eval_policy_policy_adds_no_effect (p : nat) (venv : vec_env) (n : Z) (h : heap) :
  let ex := run C (eval_policy (BasePolicy p) venv n) h in
  Forall (fun c => is_set_env c = false ∧ is_get_env c = false) (called ex) ∧
  (∀ I : heap → Prop, kept_by_rollout C I → I h → I (final ex)).
Proof.
  cbn zeta.
  assert (Hcalls : Forall (fun c => is_set_env c = false ∧ is_get_env c = false)
            (called (run C (eval_policy (BasePolicy p) venv n) h))).
  { unfold called. run_cases; cbn; by repeat constructor. }
  split; [done|]. intros I (Hrng & Hmin & Hgen & Hstats) Hh.
  revert Hcalls Hh. apply run_invariant.
  intros [] h0 [??] ?; cbn in *; try discriminate; eauto.
Qed.

(** C7. [eval_policy] handles no error.  If any call it made raised [e],
    then that call was its last, [eval_policy] itself raises [e], and the
    heap is the one the call left; conversely an exception of
    [eval_policy] is the exception of its last call; and no call is made
    twice. *)
Theorem eval_policy_propagates_errors (rl_algo : rl_object) (venv : vec_env) (n : Z)
    (h : heap) :
  let ex := run C (eval_policy rl_algo venv n) h in
  (∀ c e, (c, Raised e) ∈ calls ex →
     result ex = Raise e ∧ last (calls ex) = Some (c, Raised e) ∧
     ∃ h0, handle C c h0 = (final ex, Raise e)) ∧
  (∀ e, result ex = Raise e → ∃ c, last (calls ex) = Some (c, Raised e)) ∧
  NoDup (called ex).
Proof.
  cbn zeta. split; [|split].
  - intros c e. destruct rl_algo; run_cases; intros H; elem_of_log; simplify_eq;
      (split; [done|split; [done|eexists; cbn [handle]; eassumption]]).
  - intros e. apply eval_policy_raise_inv.
  - unfold called. destruct rl_algo; run_cases; cbn;
      repeat (apply NoDup_cons; split; [intros H; elem_of_log; discriminate|]);
      apply NoDup_nil_2.
Qed.

(** C1, what the code does.  An evaluation that returns has computed one
    statistics block: the value returned is what [rollout_stats] returned
    for the trajectories this call generated, and [rollout_stats] was
    called exactly once.  No statistics of expert trajectories are
    computed, and no expert trajectories are among the inputs. *)
Theorem eval_policy_returns_one_block (rl_algo : rl_object) (venv : vec_env) (n : Z)
    (h : heap) (s : stats) :
  let ex := run C (eval_policy rl_algo venv n) h in
  result ex = Return s →
  ∃ train_env su g h3 h4 trajs,
    on_generate_trajectories C rl_algo train_env su g h3 = (h4, Return trajs) ∧
    on_rollout_stats C trajs h4 = (final ex, Return s) ∧
    List.filter is_rollout_stats (called ex) = [RolloutStats trajs].
Proof.
  cbn zeta. intros H.
  destruct (eval_policy_return_inv _ _ _ _ _ H)
    as (h1 & g & h2 & su & h3 & e & h4 & trajs & _ & _ & _ & Hgen & Hstats & Hcalled).
  exists e, su, g, h3, h4, trajs. split; [done|split; [done|]].
  rewrite Hcalled. by destruct rl_algo.
Qed.

(** C2. When [eval_policy] is given a training algorithm, and generating
    trajectories and computing statistics leave algorithm objects alone:
    whenever trajectories are generated, [set_env(venv)] and [get_env()]
    have returned just before, generation is called with the algorithm and
    with an environment that is a wrapped form of [venv], and that
    environment is the one the algorithm holds when [eval_policy] ends,
    whether it ends normally or not.  Trajectories are generated as soon as
    [make_rng], [make_min_episodes] and [set_env] have returned, with the
    environment the algorithm then holds; if the algorithm held another
    one before, it no longer holds it afterwards. *)
Theorem eval_policy_algorithm_env_replaced (algo : nat) (venv : vec_env) (n : Z) (h : heap) :
  keeps_algorithms C →
  let ex := run C (eval_policy (BaseAlgorithm algo) venv n) h in
  (∀ rl e su g st, (GenerateTrajectories rl e su g, st) ∈ calls ex →
     rl = BaseAlgorithm algo ∧
     wrapped_form_of venv e = true ∧
     (∃ rest, calls ex =
        (MakeRng, Returned) :: (MakeMinEpisodes n, Returned) ::
        (SetEnv algo venv, Returned) :: (GetEnv algo, Returned) ::
        (GenerateTrajectories rl e su g, st) :: rest) ∧
     env_of (final ex) algo = Some e) ∧
  (∀ h1 g h2 su h3 u,
     on_make_rng C h = (h1, Return g) →
     on_make_min_episodes C n h1 = (h2, Return su) →
     sb3.set_env algo venv h2 = (h3, Return u) →
     ∃ e st,
       (GenerateTrajectories (BaseAlgorithm algo) e su g, st) ∈ calls ex ∧
       env_of h3 algo = Some e ∧
       (env_of h2 algo ≠ Some e → env_of (final ex) algo ≠ env_of h2 algo)).
Proof.
  intros [Hgen Hstats]. cbn zeta.
  assert (Hfinal : ∀ rl e su g trajs h3 h4 h5 o o',
            on_generate_trajectories C rl e su g h3 = (h4, o) →
            on_rollout_stats C trajs h4 = (h5, o') →
            env_of h4 algo = env_of h3 algo ∧ env_of h5 algo = env_of h3 algo).
  { intros rl e su g trajs h3 h4 h5 o o' E3 E4. unfold env_of.
    specialize (Hgen rl e su g h3). specialize (Hstats trajs h4).
    rewrite E3 in Hgen. rewrite E4 in Hstats. cbn in *. by rewrite Hstats, Hgen. }
  assert (Hfinal' : ∀ rl e su g h3 h4 o,
            on_generate_trajectories C rl e su g h3 = (h4, o) →
            env_of h4 algo = env_of h3 algo).
  { intros rl e su g h3 h4 o E3. unfold env_of.
    specialize (Hgen rl e su g h3). rewrite E3 in Hgen. cbn in *. by rewrite Hgen. }
  split.
  - intros rl e su g st. run_cases; intros H; elem_of_log; simplify_eq.
    all: match goal with
         | E : sb3.set_env _ _ _ = _ |- _ =>
             apply set_env_returns in E as (alg & _ & _ & Henv & _)
         end.
    all: match goal with
         | E : sb3.get_env _ _ = _ |- _ => apply get_env_returns in E as [-> Henv']
         end.
    all: rewrite Henv in Henv'; simplify_eq.
    all: split; [done|split; [apply wrapped_form_of_wrap_env|split; [by eexists|]]].
    all: try match goal with
             | Eg : on_generate_trajectories _ _ _ _ _ _ = _,
               Es : on_rollout_stats _ _ _ = _ |- _ =>
                 by destruct (Hfinal _ _ _ _ _ _ _ _ _ _ Eg Es) as [_ ->]
             end.
    all: match goal with
         | Eg : on_generate_trajectories _ _ _ _ _ _ = _ |- _ =>
             by rewrite (Hfinal' _ _ _ _ _ _ _ Eg)
         end.
  - intros h1 g h2 su h3 u E1 E2 E3. pose proof E3 as Hget%get_env_after_set_env.
    run_cases; simplify_eq; same_answers; try discriminate.
    all: match goal with E : sb3.get_env _ _ = _ |- _ => pose proof Hget as Hget'; rewrite E in Hget' end;
      try discriminate.
    all: match goal with
         | E : sb3.get_env _ _ = _ |- _ => apply get_env_returns in E as [-> Henv']
         end.
    all: do 2 eexists.
    all: split; [in_log|].
    all: split; [eassumption|].
    all: intros Hne.
    all: try match goal with
             | Eg : on_generate_trajectories _ _ _ _ _ _ = _,
               Es : on_rollout_stats _ _ _ = _ |- _ =>
                 destruct (Hfinal _ _ _ _ _ _ _ _ _ _ Eg Es) as [_ ->]; congruence
             end.
    all: match goal with
         | Eg : on_generate_trajectories _ _ _ _ _ _ = _ |- _ =>
             rewrite (Hfinal' _ _ _ _ _ _ _ Eg); congruence
         end.
Qed.

End Evaluation.

(** ** Determinism *)

Section Determinism.
Context (C : collaborators).

Lemma same_inputs_refl h : same_inputs h h.
Proof.
  split; [done|split; [done|split; [|done]]].
  intros a. destruct (algorithms h !! a); by constructor.
Qed.

Lemma same_inputs_sym h1 h2 : same_inputs h1 h2 → same_inputs h2 h1.
Proof.
  intros (Hs & Hp & Ha & He). split; [done|split; [done|split; [|done]]].
  intros a. destruct (Ha a) as [a1 a2 (?&?&?)|]; by constructor.
Qed.

Lemma same_inputs_trans h1 h2 h3 : same_inputs h1 h2 → same_inputs h2 h3 → same_inputs h1 h3.
Proof.
  intros (Hs & Hp & Ha & He) (Hs' & Hp' & Ha' & He').
  split; [congruence|split; [congruence|split; [|congruence]]].
  intros a. specialize (Ha a). specialize (Ha' a).
  destruct Ha as [a1 a2 (?&?&?)|]; inversion Ha' as [? a3 (?&?&?)|]; constructor.
  split; [congruence|split; congruence].
Qed.

Lemma respects_then {X Y} (stage : heap → execution X) (k : X → heap → execution Y) :
  respects_inputs stage → (∀ x, respects_inputs (k x)) →
  respects_inputs (fun h => then_run (stage h) k).
Proof.
  intros Hs Hk h1 h2 Hh. destruct (Hs h1 h2 Hh) as (Hr & Hc & Hf).
  unfold then_run. rewrite <- Hr, <- Hc. destruct (result (stage h1)) as [x| |]; [|done..].
  destruct (Hk x _ _ Hf) as (Hr' & Hc' & Hf'). cbn. by rewrite Hr', Hc'.
Qed.

Lemma keeps_then {X Y} (stage : heap → execution X) (k : X → heap → execution Y) :
  keeps_inputs stage → (∀ x, keeps_inputs (k x)) →
  keeps_inputs (fun h => then_run (stage h) k).
Proof.
  intros Hs Hk h. unfold then_run. specialize (Hs h).
  destruct (result (stage h)) as [x| |]; [|done..].
  cbn. eapply same_inputs_trans; [done|apply Hk].
Qed.

Lemma respects_then_at {X Y} (stage : heap → execution X) (k : X → heap → execution Y)
    h1 h2 :
  same_inputs h1 h2 →
  respects_inputs stage → (∀ x, respects_inputs (k x)) →
  result (then_run (stage h1) k) = result (then_run (stage h2) k) ∧
  calls (then_run (stage h1) k) = calls (then_run (stage h2) k) ∧
  same_inputs (final (then_run (stage h1) k)) (final (then_run (stage h2) k)).
Proof. intros Hh Hs Hk. by apply (respects_then stage k Hs Hk). Qed.

Lemma keeps_then_at {X Y} (stage : heap → execution X) (k : X → heap → execution Y) h :
  keeps_inputs stage → (∀ x, keeps_inputs (k x)) →
  same_inputs h (final (then_run (stage h) k)).
Proof. intros Hs Hk. by apply (keeps_then stage k Hs Hk). Qed.

Lemma perform_respects c :
  (∀ h1 h2, same_inputs h1 h2 →
     (handle C c h1).2 = (handle C c h2).2 ∧
     same_inputs (handle C c h1).1 (handle C c h2).1) →
  respects_inputs (perform C c).
Proof.
  intros H h1 h2 Hh. destruct (H h1 h2 Hh) as [Ho Hf]. unfold perform.
  destruct (handle C c h1) as [h1' o1], (handle C c h2) as [h2' o2]; cbn in *.
  by subst.
Qed.

Lemma perform_keeps c :
  (∀ h, same_inputs h (handle C c h).1) → keeps_inputs (perform C c).
Proof. intros H h. specialize (H h). unfold perform. by destruct (handle C c h). Qed.

(** [set_env] depends on the inputs only, and after it has returned the
    algorithms of the two heaps hold the same environment: what either held
    before plays no part. *)
Lemma set_env_respects algo venv h1 h2 :
  same_inputs h1 h2 →
  (sb3.set_env algo venv h1).2 = (sb3.set_env algo venv h2).2 ∧
  same_inputs (sb3.set_env algo venv h1).1 (sb3.set_env algo venv h2).1 ∧
  (returns (sb3.set_env algo venv h1).2 = true →
   (sb3.get_env algo (sb3.set_env algo venv h1).1).2 =
   (sb3.get_env algo (sb3.set_env algo venv h2).1).2).
Proof.
  intros Hh. pose proof Hh as (Hs & Hp & Ha & He). unfold sb3.set_env.
  destruct (Ha algo) as [a1 a2 (Hpol & Hw & Hacc)|]; [|done].
  rewrite <- Hacc. destruct (alg_accepts a1 venv); [|done]. cbn.
  split; [done|split].
  - split; [done|split; [done|split; [|done]]]. intros a. cbn.
    destruct (decide (algo = a)) as [->|Hne].
    + rewrite !lookup_insert_eq. constructor. by split.
    + rewrite !lookup_insert_ne by done. apply Ha.
  - intros _. unfold sb3.get_env; cbn. rewrite !lookup_insert_eq; cbn.
    unfold sb3.wrap_env. by rewrite Hw.
Qed.

Lemma set_env_keeps algo venv h : same_inputs h (sb3.set_env algo venv h).1.
Proof.
  unfold sb3.set_env. destruct (algorithms h !! algo) as [alg|] eqn:Halg;
    [|apply same_inputs_refl].
  destruct (alg_accepts alg venv); [|apply same_inputs_refl]. cbn.
  split; [done|split; [done|split; [|done]]]. intros a. cbn.
  destruct (decide (algo = a)) as [->|Hne].
  - rewrite lookup_insert_eq, Halg. constructor. by split.
  - rewrite lookup_insert_ne by done. destruct (algorithms h !! a); by constructor.
Qed.

Lemma environment_stage_respects algo venv :
  respects_inputs (fun h => then_run (perform C (SetEnv algo venv) h)
                              (fun _ h' => perform C (GetEnv algo) h')).
Proof.
  intros h1 h2 Hh. destruct (set_env_respects algo venv h1 h2 Hh) as (Ho & Hf & Hget).
  unfold perform; cbn [handle].
  destruct (sb3.set_env algo venv h1) as [h1' o1], (sb3.set_env algo venv h2) as [h2' o2].
  cbn in *. subst o2. destruct o1 as [u| |]; cbn; [|done..].
  specialize (Hget eq_refl).
  pose proof (get_env_heap algo h1') as Hh1. pose proof (get_env_heap algo h2') as Hh2.
  destruct (sb3.get_env algo h1') as [h1'' o1], (sb3.get_env algo h2') as [h2'' o2].
  cbn in *. by subst.
Qed.

Lemma environment_stage_keeps algo venv :
  keeps_inputs (fun h => then_run (perform C (SetEnv algo venv) h)
                           (fun _ h' => perform C (GetEnv algo) h')).
Proof.
  apply (keeps_then (perform C (SetEnv algo venv))).
  - apply perform_keeps. intros h. apply set_env_keeps.
  - intros _. apply (perform_keeps (GetEnv algo)). intros h; cbn. rewrite get_env_heap.
    apply same_inputs_refl.
Qed.

Lemma eval_policy_respects rl venv n :
  collaborators_respect_inputs C → respects_inputs (run C (eval_policy rl venv n)).
Proof.
  intros HC h1 h2 Hh. rewrite !run_eval_policy.
  apply (respects_then_at (perform C MakeRng)); [done|by apply perform_respects, HC|].
  intros g h1' h2' Hh'.
  apply (respects_then_at (perform C (MakeMinEpisodes n)));
    [done|by apply perform_respects, HC|].
  intros su h1'' h2'' Hh''.
  assert (Hrest : ∀ e, respects_inputs (fun h3 =>
            then_run (perform C (GenerateTrajectories rl e su g) h3)
              (fun trajs h4 => perform C (RolloutStats trajs) h4))).
  { intros e. apply respects_then.
    - by apply (perform_respects (GenerateTrajectories rl e su g)), HC.
    - intros trajs. by apply (perform_respects (RolloutStats trajs)), HC. }
  destruct rl as [algo|p].
  - by apply (respects_then_at _ _ _ _ Hh'' (environment_stage_respects algo venv)).
  - cbn [then_run result final calls after app]. apply (Hrest venv _ _ Hh'').
Qed.

Lemma eval_policy_keeps rl venv n :
  collaborators_keep_inputs C → keeps_inputs (run C (eval_policy rl venv n)).
Proof.
  intros HC h. rewrite run_eval_policy.
  apply (keeps_then_at (perform C MakeRng)); [by apply perform_keeps, HC|].
  intros g. apply (keeps_then (perform C (MakeMinEpisodes n)));
    [by apply perform_keeps, HC|].
  intros su.
  assert (Hrest : ∀ e, keeps_inputs (fun h3 =>
            then_run (perform C (GenerateTrajectories rl e su g) h3)
              (fun trajs h4 => perform C (RolloutStats trajs) h4))).
  { intros e. apply keeps_then.
    - by apply (perform_keeps (GenerateTrajectories rl e su g)), HC.
    - intros trajs. by apply (perform_keeps (RolloutStats trajs)), HC. }
  destruct rl as [algo|p].
  - apply keeps_then; [apply environment_stage_keeps|done].
  - intros h2. cbn [then_run result final calls after app]. apply Hrest.
Qed.

(** C4. With collaborators that depend on the inputs only (each may draw
    from the configuration scope and move the seed, the instances and the
    environment an algorithm holds, as long as what it does is determined by
    the inputs): two calls of [eval_policy] with the same arguments, from
    two heaps that hold the same objects and the same seed in the
    configuration scope (they may differ in the environment an algorithm
    holds and in where the instances of the environments stand), make the
    same calls and end the same way, with the same statistics when they
    return. *)
Theorem eval_policy_deterministic (rl_algo : rl_object) (venv : vec_env) (n : Z)
    (h1 h2 : heap) :
  collaborators_respect_inputs C →
  same_inputs h1 h2 →
  let ex1 := run C (eval_policy rl_algo venv n) h1 in
  let ex2 := run C (eval_policy rl_algo venv n) h2 in
  result ex1 = result ex2 ∧
  calls ex1 = calls ex2.
Proof.
  intros HC Hh. cbn zeta.
  by destruct (eval_policy_respects rl_algo venv n HC h1 h2 Hh) as (Hr & Hc & _).
Qed.

(** With collaborators that moreover leave the inputs as they are (the
    seed of the scope is read, not advanced), a second call made after the
    first one repeats its outcome. *)
Lemma eval_policy_repeats (rl_algo : rl_object) (venv : vec_env) (n : Z) (h : heap) :
  collaborators_respect_inputs C →
  collaborators_keep_inputs C →
  let ex := run C (eval_policy rl_algo venv n) h in
  result (run C (eval_policy rl_algo venv n) (final ex)) = result ex.
Proof.
  intros HC HK. cbn zeta.
  pose proof (eval_policy_keeps rl_algo venv n HK h) as Hk.
  by destruct (eval_policy_respects rl_algo venv n HC _ _ (same_inputs_sym _ _ Hk))
    as (-> & _).
Qed.

End Determinism.

(** ** The rollout model *)

Section Generation.
Import RolloutModel.
Context (cls : env_class) (pi : policy).

Lemma completed_snoc (t : trajectory) (x : transition) :
  in_progress t → completed (t ++ [x]) = done x.
Proof.
  intros Ht. unfold completed. rewrite reverse_snoc.
  assert (forallb (fun y => negb (done y)) (reverse t) = true) as ->.
  { apply forallb_forall. intros y Hy%list_elem_of_In. rewrite elem_of_reverse in Hy.
    unfold in_progress in Ht. rewrite Forall_forall in Ht. by rewrite Ht. }
  apply andb_true_r.
Qed.

Lemma step_one_spec i inst g inst' fin g' :
  step_one cls pi i inst g = Some (inst', fin, g') →
  in_progress inst.2 ∧ monitored_like cls inst.2 →
  (in_progress inst'.2 ∧ monitored_like cls inst'.2) ∧
  (∀ t, fin = Some t → completed t = true ∧ monitored_like cls t).
Proof.
  unfold step_one. destruct inst as [s partial]; cbn.
  destruct (predict pi (observe cls s) g) as [[a g1]|]; [|discriminate].
  destruct (step_instance cls s a) as [[s' r] d] eqn:Hstep.
  intros H [Hp Hm].
  assert (Hm' : monitored_like cls
            (partial ++ [Transition (observe cls s) a r d ((fun m => m s a) <$> monitor cls)])).
  { apply Forall_app; split; [done|]. apply Forall_singleton; cbn.
    by rewrite fmap_is_Some. }
  destruct d; injection H as <- <- <-; cbn.
  - split; [split; apply Forall_nil_2|]. intros t [= <-].
    split; [by rewrite completed_snoc|done].
  - split; [|done]. split; [|done].
    apply Forall_app; split; [done|]. by apply Forall_singleton.
Qed.

Lemma step_all_spec i insts g insts' fins g' :
  step_all cls pi i insts g = Some (insts', fins, g') →
  generating cls insts → generating cls insts' ∧ collected cls fins.
Proof.
  revert i g insts' fins g'. induction insts as [|inst rest IH]; intros i g insts' fins g'; cbn.
  - intros [= <- <- <-] _. split; apply Forall_nil_2.
  - destruct (step_one cls pi i inst g) as [[[inst1 fin] g1]|] eqn:H1; [|discriminate].
    destruct (step_all cls pi (S i) rest g1) as [[[rest1 fins1] g2]|] eqn:H2; [|discriminate].
    intros [= <- <- <-] [Hinst Hrest]%Forall_cons.
    destruct (step_one_spec _ _ _ _ _ _ H1 Hinst) as [Hinst1 Hfin].
    destruct (IH _ _ _ _ _ H2 Hrest) as [Hrest1 Hfins1].
    split; [by apply Forall_cons|].
    apply Forall_app; split; [|done].
    destruct fin as [t|]; cbn; [|apply Forall_nil_2]. apply Forall_singleton; auto.
Qed.

(** The loop returns only a set of trajectories that satisfies the stopping
    criterion, and every trajectory of the set is a completed episode. *)
Lemma collect_spec fuel (sample_until : criterion) insts trajs g insts' trajs' :
  collect fuel cls pi sample_until insts trajs g = (insts', Return trajs') →
  generating cls insts → collected cls trajs →
  sample_until trajs' = true ∧ collected cls trajs'.
Proof.
  revert insts trajs g. induction fuel as [|fuel IH]; intros insts trajs g; cbn; [discriminate|].
  destruct (step_all cls pi 0 insts g) as [[[insts1 fins] g1]|] eqn:Hstep; [|discriminate].
  intros H Hinsts Htrajs.
  destruct (step_all_spec _ _ _ _ _ _ Hstep Hinsts) as [Hinsts1 Hfins].
  assert (collected cls (trajs ++ fins)) by by apply Forall_app.
  destruct (sample_until (trajs ++ fins)) eqn:Hsu.
  - by injection H as <- <-.
  - eauto.
Qed.

Lemma generating_reset : generating cls (reset cls).
Proof.
  unfold generating, reset. apply Forall_fmap, Forall_forall. intros i _; cbn.
  split; apply Forall_nil_2.
Qed.

(** A criterion that nothing satisfies keeps the loop running or ends it
    with an error, whatever the fuel. *)
Lemma collect_blocked fuel insts trajs g :
  returns (collect fuel cls pi (fun _ => false) insts trajs g).2 = false.
Proof.
  revert insts trajs g. induction fuel as [|fuel IH]; intros insts trajs g; cbn; [done|].
  destruct (step_all cls pi 0 insts g) as [[[insts1 fins] g1]|]; [|done]. apply IH.
Qed.

Lemma step_all_total i insts g :
  total_policy pi → is_Some (step_all cls pi i insts g).
Proof.
  intros Hpi. revert i g. induction insts as [|[s partial] rest IH]; intros i g; cbn; [done|].
  destruct (Hpi (observe cls s) g) as [[a g1] ->].
  destruct (step_instance cls s a) as [[s' r] d].
  destruct d; by destruct (IH (S i) g1) as [[[??]?] ->].
Qed.

(** One step of the first instance either completes an episode or brings
    the instance closer to the end of its episode. *)
Lemma step_all_progress remaining horizon s partial rest g insts' fins g' :
  bounded_episodes cls remaining horizon →
  (0 < num_envs cls)%nat →
  step_all cls pi 0 ((s, partial) :: rest) g = Some (insts', fins, g') →
  ∃ s' partial' rest',
    insts' = (s', partial') :: rest' ∧
    (((1 ≤ length fins)%nat ∧ (remaining s' ≤ horizon)%nat) ∨
     (remaining s' < remaining s)%nat).
Proof.
  intros [Hreset Hstep] Hnum. cbn.
  destruct (predict pi (observe cls s) g) as [[a g1]|]; [|discriminate].
  specialize (Hstep s a).
  destruct (step_instance cls s a) as [[s' r] d].
  destruct d; destruct (step_all cls pi 1 rest g1) as [[[rest1 fins1] g2]|];
    try discriminate; intros [= <- <- <-]; do 3 eexists; (split; [done|]).
  - left. cbn. split; [lia|by apply Hreset].
  - right. by destruct Hstep.
Qed.

(** With a policy whose observation space is everything and an environment
    whose episodes are bounded, the loop returns once it has the fuel for
    the steps of [n] episodes of the first instance. *)
Lemma collect_terminates remaining horizon (n : Z) fuel s partial rest trajs g :
  bounded_episodes cls remaining horizon →
  (0 < num_envs cls)%nat →
  total_policy pi →
  ((Z.to_nat n - length trajs - 1) * (horizon + 1) + remaining s + 1 ≤ fuel)%nat →
  returns (collect fuel cls pi (fun trajs => bool_decide (n ≤ Z.of_nat (length trajs)))
             ((s, partial) :: rest) trajs g).2 = true.
Proof.
  intros Hb Hnum Hpi. revert s partial rest trajs g.
  induction fuel as [|fuel IH]; intros s partial rest trajs g Hfuel; [nia|].
  cbn [collect].
  destruct (step_all_total 0 ((s, partial) :: rest) g Hpi) as [[[insts' fins] g'] Hstep].
  rewrite Hstep.
  destruct (step_all_progress _ _ _ _ _ _ _ _ _ Hb Hnum Hstep)
    as (s' & partial' & rest' & -> & Hprogress).
  case_bool_decide as Hn; [done|].
  apply IH. rewrite length_app in *.
  assert (Hlt : (length trajs + length fins < Z.to_nat n)%nat) by lia.
  destruct Hprogress as [[Hfins Hrem]|Hrem].
  - assert (Hm : ((Z.to_nat n - (length trajs + length fins) - 1) + 1
                  ≤ Z.to_nat n - length trajs - 1)%nat) by lia.
    apply (Nat.mul_le_mono_r _ _ (horizon + 1)) in Hm. lia.
  - assert (Hm : (Z.to_nat n - (length trajs + length fins) - 1
                  ≤ Z.to_nat n - length trajs - 1)%nat) by lia.
    apply (Nat.mul_le_mono_r _ _ (horizon + 1)) in Hm. lia.
Qed.

(** *** The episodes are episodes of the environment *)

Lemma walk_snoc s t s1 x s2 :
  walk cls s t s1 →
  obs x = observe cls s1 →
  step_instance cls s1 (act x) = (s2, rew x, done x) →
  walk cls s (t ++ [x]) s2.
Proof.
  revert s. induction t as [|y t IH]; intros s; cbn.
  - intros -> Hobs Hstep. split; [done|]. by exists s2.
  - intros (Hy & s' & Hs' & Hw) Hobs Hstep. split; [done|].
    exists s'. split; [done|]. by apply IH.
Qed.

Lemma step_one_walk i inst g inst' fin g' :
  step_one cls pi i inst g = Some (inst', fin, g') →
  (∃ j, walk cls (reset_state cls j) inst.2 inst.1) →
  (∃ j, walk cls (reset_state cls j) inst'.2 inst'.1) ∧
  (∀ t, fin = Some t → episode_of cls t).
Proof.
  unfold step_one. destruct inst as [s partial]; cbn.
  destruct (predict pi (observe cls s) g) as [[a g1]|]; [|discriminate].
  destruct (step_instance cls s a) as [[s' r] d] eqn:Hstep.
  intros H [j Hw].
  assert (Hw' : walk cls (reset_state cls j)
            (partial ++ [Transition (observe cls s) a r d ((fun m => m s a) <$> monitor cls)])
            s') by by eapply walk_snoc.
  destruct d; injection H as <- <- <-; cbn.
  - split; [by exists i|]. intros t [= <-]. by exists j, s'.
  - split; [by exists j|done].
Qed.

Lemma step_all_walk i insts g insts' fins g' :
  step_all cls pi i insts g = Some (insts', fins, g') →
  on_episodes cls insts → on_episodes cls insts' ∧ Forall (episode_of cls) fins.
Proof.
  revert i g insts' fins g'. induction insts as [|inst rest IH]; intros i g insts' fins g'; cbn.
  - intros [= <- <- <-] _. split; apply Forall_nil_2.
  - destruct (step_one cls pi i inst g) as [[[inst1 fin] g1]|] eqn:H1; [|discriminate].
    destruct (step_all cls pi (S i) rest g1) as [[[rest1 fins1] g2]|] eqn:H2; [|discriminate].
    intros [= <- <- <-] [Hinst Hrest]%Forall_cons.
    destruct (step_one_walk _ _ _ _ _ _ H1 Hinst) as [Hinst1 Hfin].
    destruct (IH _ _ _ _ _ H2 Hrest) as [Hrest1 Hfins1].
    split; [by apply Forall_cons|].
    apply Forall_app; split; [|done].
    destruct fin as [t|]; cbn; [|apply Forall_nil_2]. apply Forall_singleton; auto.
Qed.

(** Every trajectory the loop returns is made of steps of the environment,
    from an initial state of one of its instances. *)
Lemma collect_walk fuel (sample_until : criterion) insts trajs g insts' trajs' :
  collect fuel cls pi sample_until insts trajs g = (insts', Return trajs') →
  on_episodes cls insts → Forall (episode_of cls) trajs →
  Forall (episode_of cls) trajs'.
Proof.
  revert insts trajs g. induction fuel as [|fuel IH]; intros insts trajs g; cbn; [discriminate|].
  destruct (step_all cls pi 0 insts g) as [[[insts1 fins] g1]|] eqn:Hstep; [|discriminate].
  intros H Hinsts Htrajs.
  destruct (step_all_walk _ _ _ _ _ _ Hstep Hinsts) as [Hinsts1 Hfins].
  assert (Forall (episode_of cls) (trajs ++ fins)) by by apply Forall_app.
  destruct (sample_until (trajs ++ fins)) eqn:Hsu.
  - by injection H as <- <-.
  - eauto.
Qed.

Lemma on_episodes_reset : on_episodes cls (reset cls).
Proof.
  unfold on_episodes, reset. apply Forall_fmap, Forall_forall. intros i _; cbn. by exists i.
Qed.

End Generation.

(** ** [eval_policy] over the rollout model *)

Section Model.
Import RolloutModel.

Lemma unwrapped_wrap_env alg venv : unwrapped (sb3.wrap_env alg venv) = unwrapped venv.
Proof. unfold sb3.wrap_env. by induction (alg_wrappers alg) as [|w ws IH]. Qed.

Lemma generate_trajectories_algorithms fuel rl e su g h :
  algorithms (generate_trajectories fuel rl e su g h).1 = algorithms h ∧
  policies (generate_trajectories fuel rl e su g h).1 = policies h ∧
  seed (generate_trajectories fuel rl e su g h).1 = seed h.
Proof.
  unfold generate_trajectories.
  destruct (policy_of rl h), (envs h !! unwrapped e); try done.
  by destruct (collect _ _ _ _ _ _ _).
Qed.

Lemma rollout_stats_heap trajs h : (rollout_stats trajs h).1 = h.
Proof. by destruct trajs. Qed.

Lemma model_keeps_algorithms d fuel : keeps_algorithms (model d fuel).
Proof.
  split; cbn.
  - intros. apply generate_trajectories_algorithms.
  - intros. by rewrite rollout_stats_heap.
Qed.

Lemma make_min_episodes_heap d n h : (make_min_episodes d n h).1 = h.
Proof. unfold make_min_episodes. case_bool_decide; by destruct d. Qed.

Lemma make_min_episodes_positive d n h :
  0 < n →
  make_min_episodes d n h =
    (h, Return (fun trajs => bool_decide (n ≤ Z.of_nat (length trajs)))).
Proof. intros Hn. unfold make_min_episodes. by rewrite bool_decide_eq_false_2 by lia. Qed.

(** Obtaining the environment changes nothing but the environment the
    algorithm holds, and the environment obtained wraps the one passed. *)
Lemma environment_obtained_inv rl venv h2 h3 e :
  environment_obtained rl venv h2 h3 e →
  seed h3 = seed h2 ∧ policies h3 = policies h2 ∧ envs h3 = envs h2 ∧
  policy_of rl h3 = policy_of rl h2 ∧ unwrapped e = unwrapped venv.
Proof.
  destruct rl as [algo|p]; cbn; [|by intros [-> ->]].
  intros (u & Hset & Hget). apply get_env_returns in Hget as [_ Hget].
  unfold sb3.set_env in Hset. unfold env_of in Hget.
  destruct (algorithms h2 !! algo) as [alg|] eqn:Halg; [|discriminate].
  destruct (alg_accepts alg venv); [|discriminate].
  injection Hset as <-. cbn in *. rewrite lookup_insert_eq in Hget |- *. cbn in *.
  injection Hget as <-. by rewrite unwrapped_wrap_env.
Qed.

(** What a generation that returns has returned. *)
Lemma generate_trajectories_returns_inv fuel rl e su g h h' trajs :
  generate_trajectories fuel rl e su g h = (h', Return trajs) →
  ∃ pi env,
    policy_of rl h = Some pi ∧ envs h !! unwrapped e = Some env ∧
    su trajs = true ∧ collected (env_cls env) trajs.
Proof.
  unfold generate_trajectories.
  destruct (policy_of rl h) as [pi|]; [|discriminate].
  destruct (envs h !! unwrapped e) as [env|]; [|discriminate].
  destruct (collect _ _ _ _ _ _ _) as [insts o] eqn:Hcollect.
  intros [= <- ->]. exists pi, env. split; [done|split; [done|]].
  eapply collect_spec; [done|apply generating_reset|apply Forall_nil_2].
Qed.

Lemma generate_trajectories_episodes fuel rl e su g h h' trajs env :
  generate_trajectories fuel rl e su g h = (h', Return trajs) →
  envs h !! unwrapped e = Some env →
  Forall (episode_of (env_cls env)) trajs.
Proof.
  unfold generate_trajectories. intros H Henv. rewrite Henv in H.
  destruct (policy_of rl h) as [pi|]; [|discriminate].
  destruct (collect _ _ _ _ _ _ _) as [insts o] eqn:Hcollect.
  injection H as <- ->.
  eapply collect_walk; [done|apply on_episodes_reset|apply Forall_nil_2].
Qed.

(** With a policy whose observation space is everything and an environment
    with an instance and bounded episodes, a generation until [n] episodes
    returns once the fuel covers the steps of [n] episodes. *)
Lemma generate_trajectories_returns fuel rl e (n : Z) g h pi env remaining horizon :
  0 < n →
  policy_of rl h = Some pi → total_policy pi →
  envs h !! unwrapped e = Some env →
  (0 < num_envs (env_cls env))%nat →
  bounded_episodes (env_cls env) remaining horizon →
  (Z.to_nat n * (horizon + 1) ≤ fuel)%nat →
  ∃ h' trajs,
    generate_trajectories fuel rl e
      (fun trajs => bool_decide (n ≤ Z.of_nat (length trajs))) g h = (h', Return trajs) ∧
    trajs ≠ [].
Proof.
  intros Hn Hp Hpi Henv Hnum Hb Hfuel.
  unfold generate_trajectories. rewrite Hp, Henv.
  destruct (collect _ _ _ _ _ _ _) as [insts o] eqn:Hcollect.
  assert (Hret : returns o = true).
  { change o with (insts, o).2. rewrite <- Hcollect. unfold reset.
    pose proof Hb as [Hreset _]. specialize (Hreset 0%nat Hnum).
    destruct (num_envs (env_cls env)) as [|k] eqn:Hk; [lia|]. cbn [seq fmap list_fmap].
    eapply collect_terminates; [done|rewrite Hk; lia|done|]. cbn [length].
    assert (Hm : ((Z.to_nat n - 0 - 1) + 1 ≤ Z.to_nat n)%nat) by lia.
    apply (Nat.mul_le_mono_r _ _ (horizon + 1)) in Hm. lia. }
  destruct o as [trajs| |]; try done. do 2 eexists. split; [done|].
  apply collect_spec in Hcollect as [Hsu _];
    [|apply generating_reset|apply Forall_nil_2].
  apply bool_decide_eq_true in Hsu. intros ->. cbn in Hsu. lia.
Qed.

(** Over the rollout model, an evaluation for a positive count [n] returns
    when there is what a generation needs to return, and, for an algorithm,
    when the algorithm takes the environment. *)
Lemma eval_policy_returns d fuel rl venv n h pi env remaining horizon :
  0 < n →
  policy_of rl h = Some pi → total_policy pi →
  environment_accepted rl venv h →
  envs h !! unwrapped venv = Some env →
  (0 < num_envs (env_cls env))%nat →
  bounded_episodes (env_cls env) remaining horizon →
  (Z.to_nat n * (horizon + 1) ≤ fuel)%nat →
  returns (result (run (model d fuel) (eval_policy rl venv n) h)) = true.
Proof.
  intros Hn Hp Hpi Hacc Henv Hnum Hb Hfuel.
  rewrite run_eval_policy, then_run_perform. cbn [handle model on_make_rng make_rng].
  cbn [after result]. rewrite then_run_perform.
  cbn [handle model on_make_min_episodes]. rewrite make_min_episodes_positive by done.
  cbn [after result then_run final calls].
  destruct rl as [algo|p].
  - destruct Hacc as (alg & Halg & Haccepts).
    rewrite then_run_perform. cbn [handle]. unfold sb3.set_env. rewrite Halg, Haccepts.
    cbn [after result then_run final calls]. rewrite perform_eq. cbn [handle].
    unfold sb3.get_env. cbn [algorithms]. rewrite lookup_insert_eq. cbn [alg_env].
    cbn [after result then_run final calls].
    edestruct (generate_trajectories_returns fuel (BaseAlgorithm algo)
                 (sb3.wrap_env alg venv) n (seed h)) as (h' & trajs & Hgen & Hne);
      [done| | | |done|done|done|..].
    4:{ rewrite then_run_perform. cbn [handle model on_generate_trajectories].
        rewrite Hgen. cbn [after result]. rewrite perform_eq.
        cbn [handle model on_rollout_stats]. by destruct trajs. }
    + cbn [policy_of algorithms]. rewrite lookup_insert_eq. cbn.
      cbn in Hp. rewrite Halg in Hp. exact Hp.
    + done.
    + cbn [envs]. by rewrite unwrapped_wrap_env.
  - destruct (generate_trajectories_returns fuel (BasePolicy p) venv n (seed h) h
                pi env remaining horizon) as (h' & trajs & Hgen & Hne); [done..|].
    cbn [after result then_run final calls]. rewrite then_run_perform. cbn [handle model on_generate_trajectories]. rewrite Hgen.
    cbn [after result]. rewrite perform_eq. cbn [handle model on_rollout_stats].
    by destruct trajs.
Qed.

(** C3. Over the rollout model, for a positive episode count [n].  The
    trajectories that [eval_policy] hands to the statistics are the ones its
    generation returned (for the environment obtained as the source obtains
    it, the criterion of [n] episodes and the source seeded from the scope);
    they number at least [n], each of them is a completed episode, and each
    is made of steps of the environment passed.  And the evaluation does
    hand them over and return, for a bare policy as for an algorithm: when
    the policy's observation space is everything, an algorithm takes the
    environment, the environment has an instance and its episodes are
    bounded, and the fuel covers the steps of [n] episodes. *)
Theorem eval_policy_generates_at_least_n (d : degenerate) (fuel : nat) (rl_algo : rl_object)
    (venv : vec_env) (n : Z) (h : heap) :
  0 < n →
  let ex := run (model d fuel) (eval_policy rl_algo venv n) h in
  (∀ trajs, RolloutStats trajs ∈ called ex →
     (∃ train_env h3 h4,
        environment_obtained rl_algo venv h h3 train_env ∧
        generate_trajectories fuel rl_algo train_env
          (fun trajs => bool_decide (n ≤ Z.of_nat (length trajs))) (seed h) h3
        = (h4, Return trajs)) ∧
     n ≤ Z.of_nat (length trajs) ∧
     Forall (fun t => completed t = true) trajs ∧
     (∃ env, envs h !! unwrapped venv = Some env ∧
             Forall (episode_of (env_cls env)) trajs)) ∧
  (∀ pi env remaining horizon,
     policy_of rl_algo h = Some pi → total_policy pi →
     environment_accepted rl_algo venv h →
     envs h !! unwrapped venv = Some env →
     (0 < num_envs (env_cls env))%nat →
     bounded_episodes (env_cls env) remaining horizon →
     (Z.to_nat n * (horizon + 1) ≤ fuel)%nat →
     ∃ trajs s, RolloutStats trajs ∈ called ex ∧ result ex = Return s).
Proof.
  intros Hn. cbn zeta. split.
  - intros trajs ([c st] & [= <-] & Hin)%list_elem_of_fmap.
    apply rollout_stats_call_inv in Hin
      as (h1 & g & h2 & su & h3 & e & h4 & Hrng & Hmin & Henv & Hgen & _).
    cbn in Hrng, Hmin, Hgen. unfold make_rng in Hrng. injection Hrng as <- <-.
    rewrite make_min_episodes_positive in Hmin by done.
    injection Hmin as <- <-.
    split; [by exists e, h3, h4|].
    pose proof (environment_obtained_inv _ _ _ _ _ Henv) as (_ & _ & Henvs & _ & He).
    pose proof (generate_trajectories_returns_inv _ _ _ _ _ _ _ _ Hgen)
      as (pi & env & _ & Hlookup & Hsu & Hc).
    split; [by apply bool_decide_eq_true in Hsu|].
    split; [eapply Forall_impl; [exact Hc|]; by intros t [??]|].
    exists env. split; [by rewrite <- He, <- Henvs|].
    by eapply generate_trajectories_episodes.
  - intros pi env remaining horizon Hp Hpi Hacc Henv Hnum Hb Hfuel.
    pose proof (eval_policy_returns d fuel rl_algo venv n h pi env remaining horizon
                  Hn Hp Hpi Hacc Henv Hnum Hb Hfuel) as Hret.
    destruct (result _) as [s| |] eqn:Hres; try done.
    pose proof Hres as (h1 & g & h2 & su & h3 & e & h4 & trajs & _ & _ & _ & _ & _ & Hcalled)
      %eval_policy_return_inv.
    exists trajs, s. split; [|done].
    rewrite Hcalled. rewrite !elem_of_app. right; right.
    apply list_elem_of_further, list_elem_of_here.
Qed.

(** C5. Over the rollout model, for an episode count [n ≤ 0] and whichever
    of the two documented behaviours of [make_min_episodes]: [eval_policy]
    returns no value, whatever the fuel.  It either keeps running or raises
    the exception of its last call to a collaborator; [n] reaches
    [make_min_episodes] unexamined, as the second call; and when
    [make_min_episodes] rejects, [eval_policy] raises that rejection. *)
Theorem eval_policy_nonpositive_count (d : degenerate) (fuel : nat) (rl_algo : rl_object)
    (venv : vec_env) (n : Z) (h : heap) :
  n ≤ 0 →
  let ex := run (model d fuel) (eval_policy rl_algo venv n) h in
  returns (result ex) = false ∧
  (result ex = Diverge ∨
   ∃ c e, result ex = Raise e ∧ last (calls ex) = Some (c, Raised e)) ∧
  (∃ rest, calls ex =
     (MakeRng, Returned) ::
     (MakeMinEpisodes n, status_of (make_min_episodes d n h).2) :: rest) ∧
  (d = Rejects →
   result ex = Raise (AssertionError "n >= 1") ∧
   calls ex = [(MakeRng, Returned); (MakeMinEpisodes n, Raised (AssertionError "n >= 1"))]).
Proof.
  intros Hn. cbn zeta.
  assert (Hno : returns (result (run (model d fuel) (eval_policy rl_algo venv n) h)) = false).
  { destruct (result _) as [s| |] eqn:Hres; try done.
    apply eval_policy_return_inv in Hres
      as (h1 & g & h2 & su & h3 & e & h4 & trajs & _ & Hmin & _ & Hgen & _).
    cbn in Hmin, Hgen. unfold make_min_episodes in Hmin.
    rewrite bool_decide_eq_true_2 in Hmin by done.
    destruct d; [discriminate|]. injection Hmin as <- <-.
    unfold generate_trajectories in Hgen.
    destruct (policy_of rl_algo h3) as [pi|]; [|discriminate].
    destruct (envs h3 !! unwrapped e) as [env|]; [|discriminate].
    pose proof (collect_blocked (env_cls env) pi fuel (reset (env_cls env)) [] g) as Hb.
    destruct (collect _ _ _ _ _ _ _) as [insts o]. injection Hgen as _ ->. done. }
  split; [done|]. split; [|split].
  - destruct (result _) as [s|e|] eqn:Hres; [done| |by left].
    right. apply eval_policy_raise_inv in Hres as [c Hc]. by exists c, e.
  - by apply (eval_policy_first_calls (model d fuel) rl_algo venv n h h (seed h)).
  - intros ->. clear Hno. destruct rl_algo; run_cases; cbn in *.
    all: unfold make_rng, make_min_episodes in *.
    all: repeat match goal with
                | H : context [bool_decide (_ ≤ 0)] |- _ =>
                    rewrite bool_decide_eq_true_2 in H by done
                end.
    all: by simplify_eq.
Qed.

(** *** The model depends on the inputs only *)

Lemma with_env_states_same h1 h2 id cls insts1 insts2 :
  same_inputs h1 h2 →
  same_inputs (with_env_states h1 id cls insts1) (with_env_states h2 id cls insts2).
Proof.
  intros (Hs & Hp & Ha & He). split; [done|split; [done|split; [done|]]].
  intros id'. cbn. destruct (decide (id = id')) as [->|Hne].
  - by rewrite !lookup_insert_eq.
  - rewrite !lookup_insert_ne by done. apply He.
Qed.

Lemma policy_of_same rl h1 h2 : same_inputs h1 h2 → policy_of rl h1 = policy_of rl h2.
Proof.
  intros (Hs & Hp & Ha & He). destruct rl as [a|p]; cbn; [|by rewrite Hp].
  destruct (Ha a) as [a1 a2 (?&?&?)|]; cbn; congruence.
Qed.

(** Generation starts by resetting the environment: where its instances
    stood before plays no part. *)
Lemma generate_trajectories_respects fuel rl e su g h1 h2 :
  same_inputs h1 h2 →
  (generate_trajectories fuel rl e su g h1).2 = (generate_trajectories fuel rl e su g h2).2 ∧
  same_inputs (generate_trajectories fuel rl e su g h1).1
              (generate_trajectories fuel rl e su g h2).1.
Proof.
  intros Hh. unfold generate_trajectories. rewrite (policy_of_same rl h1 h2 Hh).
  destruct (policy_of rl h2) as [pi|]; [|done].
  pose proof Hh as (_ & _ & _ & He). specialize (He (unwrapped e)).
  destruct (envs h1 !! unwrapped e) as [env1|], (envs h2 !! unwrapped e) as [env2|];
    try done.
  injection He as ->. destruct (collect _ _ _ _ _ _ _) as [insts o]. cbn.
  split; [done|]. by apply with_env_states_same.
Qed.

Lemma generate_trajectories_keeps fuel rl e su g h :
  same_inputs h (generate_trajectories fuel rl e su g h).1.
Proof.
  unfold generate_trajectories.
  destruct (policy_of rl h) as [pi|]; [|apply same_inputs_refl].
  destruct (envs h !! unwrapped e) as [env|] eqn:Henv; [|apply same_inputs_refl].
  destruct (collect _ _ _ _ _ _ _) as [insts o]. cbn.
  split; [done|split; [done|split]]; cbn.
  - intros a. destruct (algorithms h !! a); by constructor.
  - intros id. destruct (decide (unwrapped e = id)) as [<-|Hne].
    + by rewrite lookup_insert_eq, Henv.
    + by rewrite lookup_insert_ne.
Qed.

Lemma model_respects_inputs d fuel : collaborators_respect_inputs (model d fuel).
Proof.
  intros [|n|algo venv|algo|rl e su g|trajs] Hset Hget h1 h2 Hh; try discriminate; cbn.
  - split; [|done]. unfold make_rng. by destruct Hh as [-> _].
  - rewrite !make_min_episodes_heap. split; [|done].
    unfold make_min_episodes. case_bool_decide; by destruct d.
  - by apply generate_trajectories_respects.
  - rewrite !rollout_stats_heap. split; [|done]. by destruct trajs.
Qed.

(** A [make_rng] that draws from the scope depends on the inputs only, and
    does not leave them as they are. *)
Lemma drawing_model_respects_inputs d fuel : collaborators_respect_inputs (drawing_model d fuel).
Proof.
  intros [|n|algo venv|algo|rl e su g|trajs] Hset Hget h1 h2 Hh; try discriminate; cbn.
  - unfold draw_rng. destruct Hh as (Hs & Hp & Ha & He). cbn. rewrite Hs.
    split; [done|]. by split.
  - rewrite !make_min_episodes_heap. split; [|done].
    unfold make_min_episodes. case_bool_decide; by destruct d.
  - by apply generate_trajectories_respects.
  - rewrite !rollout_stats_heap. split; [|done]. by destruct trajs.
Qed.

Lemma drawing_model_moves_seed d fuel : ¬ collaborators_keep_inputs (drawing_model d fuel).
Proof.
  intros H. by destruct (H MakeRng eq_refl eq_refl sample_heap) as [Hseed _].
Qed.

Lemma model_keeps_inputs d fuel : collaborators_keep_inputs (model d fuel).
Proof.
  intros [|n|algo venv|algo|rl e su g|trajs] Hset Hget h; try discriminate; cbn.
  - apply same_inputs_refl.
  - rewrite make_min_episodes_heap. apply same_inputs_refl.
  - apply generate_trajectories_keeps.
  - rewrite rollout_stats_heap. apply same_inputs_refl.
Qed.

(** *** The keys of the statistics *)

Lemma completed_nonempty t : completed t = true → t ≠ [].
Proof. by intros H ->. Qed.

Lemma monitor_returns_none cls trajs :
  monitor cls = None → collected cls trajs → monitor_returns trajs = [].
Proof.
  intros Hm. unfold monitor_returns. induction 1 as [|t trajs [Hc Ht] _ IH]; [done|].
  assert (Hnone : mapM info t = None).
  { apply mapM_None. destruct t as [|x t]; [done|]. apply Exists_cons_hd.
    apply Forall_cons in Ht as [Hx _]. rewrite Hm in Hx.
    destruct (info x) as [r|]; [|done]. exfalso.
    by apply (is_Some_None (A:=Z → action → reward)), Hx. }
  cbn [omap list_omap]. unfold reward in *. by rewrite Hnone.
Qed.

Lemma monitor_returns_some cls trajs :
  is_Some (monitor cls) → collected cls trajs →
  length (monitor_returns trajs) = length trajs.
Proof.
  intros Hm. unfold monitor_returns. induction 1 as [|t trajs [Hc Ht] _ IH]; [done|].
  assert (is_Some (mapM info t)) as [rs Hrs].
  { apply mapM_is_Some. eapply Forall_impl; [exact Ht|]. intros x Hx; cbn. by apply Hx. }
  cbn [omap list_omap]. unfold reward in *. rewrite Hrs.
  cbn [fmap option_fmap option_map length].
  f_equal. apply IH.
Qed.

Lemma dom_describe_return l :
  dom (describe "return" l) = {[ "return_mean"; "return_min"; "return_max" ]}.
Proof. unfold describe. rewrite !dom_insert_L, dom_singleton_L. cbn. set_solver. Qed.

Lemma dom_describe_monitor_return l :
  dom (describe "monitor_return" l) =
    {[ "monitor_return_mean"; "monitor_return_min"; "monitor_return_max" ]}.
Proof. unfold describe. rewrite !dom_insert_L, dom_singleton_L. cbn. set_solver. Qed.

(** The keys of the statistics of collected episodes depend on the class of
    the environment only. *)
Lemma rollout_stats_keys cls trajs h h' s :
  collected cls trajs → rollout_stats trajs h = (h', Return s) → dom s = stats_keys cls.
Proof.
  intros Hc. unfold rollout_stats, stats_keys. destruct trajs as [|t trajs]; [discriminate|].
  destruct (monitor cls) as [m|] eqn:Hm.
  - pose proof (monitor_returns_some cls (t :: trajs) (ltac:(by rewrite Hm)) Hc) as Hlen.
    destruct (monitor_returns (t :: trajs)) as [|r rs]; [discriminate|].
    intros [= _ <-].
    rewrite dom_union_L, !dom_insert_L, dom_describe_return, dom_describe_monitor_return.
    unfold return_keys, monitor_keys. set_solver.
  - rewrite (monitor_returns_none cls _ Hm Hc). intros [= _ <-].
    rewrite dom_insert_L, dom_describe_return. unfold return_keys. set_solver.
Qed.

(** The keys of what an evaluation returns are those of the class of the
    environment under the wrappers of the one passed. *)
Lemma eval_policy_keys d fuel rl venv n h s :
  result (run (model d fuel) (eval_policy rl venv n) h) = Return s →
  ∃ env, envs h !! unwrapped venv = Some env ∧ dom s = stats_keys (env_cls env).
Proof.
  intros (h1 & g & h2 & su & h3 & e & h4 & trajs & Hrng & Hmin & Henv & Hgen & Hstats & _)
    %eval_policy_return_inv.
  cbn in Hrng, Hmin, Hgen, Hstats. injection Hrng as <- <-.
  pose proof (make_min_episodes_heap d n h) as Hh. rewrite Hmin in Hh. cbn in Hh. subst h2.
  apply environment_obtained_inv in Henv as (_ & _ & Henvs & _ & Hun).
  apply generate_trajectories_returns_inv in Hgen as (pi & env & _ & Hlook & _ & Hc).
  exists env. rewrite <- Henvs, <- Hun. split; [done|].
  by eapply rollout_stats_keys.
Qed.

(** C8. Over the rollout model: two evaluations that return, with the same
    policy or algorithm and the same environment, from heaps that hold the
    same objects, with positive episode counts [n1] and [n2] (and any
    fuel), return statistics with the same set of keys. *)
Theorem eval_policy_keys_independent_of_n (d : degenerate) (fuel1 fuel2 : nat)
    (rl_algo : rl_object) (venv : vec_env) (n1 n2 : Z) (h1 h2 : heap) (s1 s2 : stats) :
  0 < n1 → 0 < n2 →
  same_inputs h1 h2 →
  result (run (model d fuel1) (eval_policy rl_algo venv n1) h1) = Return s1 →
  result (run (model d fuel2) (eval_policy rl_algo venv n2) h2) = Return s2 →
  dom s1 = dom s2.
Proof.
  intros _ _ (_ & _ & _ & He) (env1 & Henv1 & ->)%eval_policy_keys
    (env2 & Henv2 & ->)%eval_policy_keys.
  specialize (He (unwrapped venv)). rewrite Henv1, Henv2 in He. by injection He as ->.
Qed.

End Model.

(** ** Concrete evaluations *)

Section Examples.
Import RolloutModel.

(** The scenario of the spec: one episode of five steps of reward 1. *)
Example five_steps_one_episode :
  result (run (model Rejects 5) (eval_policy (BasePolicy 1) (VecEnv 0) 1) trivial_heap) =
    Return {[ "n_traj" := 1%Q; "return_mean" := 5%Q; "return_min" := 5%Q;
              "return_max" := 5%Q ]}.
Proof. vm_compute. reflexivity. Qed.

(** With fuel for four steps the episode is not over. *)
Example five_steps_out_of_fuel :
  result (run (model Rejects 4) (eval_policy (BasePolicy 1) (VecEnv 0) 1) trivial_heap) =
    Diverge.
Proof. vm_compute. reflexivity. Qed.

(** The mapping returned has the keys of one statistics block; neither
    "imit_stats" nor "expert_stats" is among them. *)
Example five_steps_keys :
  ∃ s, result (run (model Rejects 5) (eval_policy (BasePolicy 1) (VecEnv 0) 1) trivial_heap)
       = Return s ∧
       dom s = return_keys ∧ ("imit_stats" ∉ dom s) ∧ ("expert_stats" ∉ dom s).
Proof.
  eexists. split; [apply five_steps_one_episode|].
  assert (dom ({[ "n_traj" := 1%Q; "return_mean" := 5%Q; "return_min" := 5%Q;
                  "return_max" := 5%Q ]} : gmap string Q) = return_keys) as ->.
  { by rewrite !dom_insert_L, dom_singleton_L, !(assoc_L (∪)). }
  unfold return_keys. rewrite !not_elem_of_union, !not_elem_of_singleton. by repeat split.
Qed.

(** Three episodes of the two-instance environment, through the algorithm:
    the keys of the monitor are there. *)
Example countdown_three_episodes :
  result (run (model Rejects 40) (eval_policy (BaseAlgorithm 0) (VecEnv 1) 3) sample_heap) =
    Return {[ "n_traj" := 3%Q;
              "return_mean" := (22 # 3)%Q; "return_min" := 5%Q; "return_max" := 11%Q;
              "monitor_return_len" := 3%Q;
              "monitor_return_mean" := (44 # 3)%Q; "monitor_return_min" := 10%Q;
              "monitor_return_max" := 22%Q ]}.
Proof. vm_compute. reflexivity. Qed.

Example countdown_one_episode :
  result (run (model Rejects 40) (eval_policy (BaseAlgorithm 0) (VecEnv 1) 1)
            sample_heap_later) =
    Return {[ "n_traj" := 1%Q;
              "return_mean" := 5%Q; "return_min" := 5%Q; "return_max" := 5%Q;
              "monitor_return_len" := 1%Q;
              "monitor_return_mean" := 10%Q; "monitor_return_min" := 10%Q;
              "monitor_return_max" := 10%Q ]}.
Proof. vm_compute. reflexivity. Qed.

(** The algorithm rejects an environment that does not fit, and the error
    of [set_env] is the error of [eval_policy]. *)
Example spaces_do_not_match :
  result (run (model Rejects 40) (eval_policy (BaseAlgorithm 0) (VecEnv 0) 3) sample_heap) =
    Raise (ValueError "spaces do not match").
Proof. vm_compute. reflexivity. Qed.

(** The environment generation is given: the one the algorithm reports,
    with the wrappers of the algorithm, and the caller's own for a bare
    policy. *)
Example generation_env_of_algorithm :
  omap generation_env
    (called (run (model Rejects 40) (eval_policy (BaseAlgorithm 0) (VecEnv 1) 3) sample_heap))
  = [VecEnvWrapper 7 (VecEnvWrapper 8 (VecEnv 1))] ∧
  env_of (final (run (model Rejects 40) (eval_policy (BaseAlgorithm 0) (VecEnv 1) 3)
                   sample_heap)) 0
  = Some (VecEnvWrapper 7 (VecEnvWrapper 8 (VecEnv 1))) ∧
  env_of sample_heap 0 = Some (VecEnvWrapper 9 (VecEnv 5)).
Proof. vm_compute. done. Qed.

Example generation_env_of_policy :
  omap generation_env
    (called (run (model Rejects 40) (eval_policy (BasePolicy 2) (VecEnv 1) 3) sample_heap))
  = [VecEnv 1] ∧
  algorithms (final (run (model Rejects 40) (eval_policy (BasePolicy 2) (VecEnv 1) 3)
                       sample_heap))
  = algorithms sample_heap.
Proof. split; [by vm_compute|reflexivity]. Qed.

(** A program with a [try] does recover from the error [eval_policy]
    propagates. *)
Example stats_or_empty_recovers :
  result (run (model Rejects 0) (stats_or_empty []) trivial_heap) = Return ∅ ∧
  result (run (model Rejects 0) (rollout.rollout_stats []) trivial_heap) =
    Raise (AssertionError "len(trajectories) > 0").
Proof. split; reflexivity. Qed.

Lemma sample_heaps_same_inputs : same_inputs sample_heap sample_heap_later.
Proof.
  split; [done|split; [done|split]].
  - intros a. unfold sample_heap, sample_heap_later; cbn [algorithms].
    destruct (decide (a = 0%nat)) as [->|Hne].
    + rewrite !lookup_singleton_eq. by constructor.
    + rewrite !lookup_singleton_ne by done. constructor.
  - intros id. unfold sample_heap, sample_heap_later; cbn [envs].
    destruct (decide (id = 0%nat)) as [->|H0]; [by rewrite !lookup_insert_eq|].
    rewrite !lookup_insert_ne by done.
    destruct (decide (id = 1%nat)) as [->|H1]; [by rewrite !lookup_singleton_eq|].
    by rewrite !lookup_singleton_ne.
Qed.

Lemma eval_policy_returns_one_block_witness :
  let ex := run (model Rejects 5) (eval_policy (BasePolicy 1) (VecEnv 0) 1) trivial_heap in
  ∃ train_env su g h3 h4 trajs,
    generate_trajectories 5 (BasePolicy 1) train_env su g h3 = (h4, Return trajs) ∧
    rollout_stats trajs h4 =
      (final ex, Return {[ "n_traj" := 1%Q; "return_mean" := 5%Q; "return_min" := 5%Q;
                           "return_max" := 5%Q ]}) ∧
    List.filter is_rollout_stats (called ex) = [RolloutStats trajs].
Proof.
  apply (eval_policy_returns_one_block (model Rejects 5) (BasePolicy 1) (VecEnv 0) 1
           trivial_heap).
  vm_compute. reflexivity.
Defined.

Lemma eval_policy_algorithm_env_replaced_witness :
  let ex := run (model Rejects 40) (eval_policy (BaseAlgorithm 0) (VecEnv 1) 3) sample_heap in
  ∃ e st,
    (GenerateTrajectories (BaseAlgorithm 0) e
       (fun trajs => bool_decide (3 ≤ Z.of_nat (length trajs))) 11, st) ∈ calls ex ∧
    env_of (sb3.set_env 0 (VecEnv 1) sample_heap).1 0 = Some e ∧
    (env_of sample_heap 0 ≠ Some e → env_of (final ex) 0 ≠ env_of sample_heap 0).
Proof.
  apply (proj2 (eval_policy_algorithm_env_replaced (model Rejects 40) 0 (VecEnv 1) 3
                  sample_heap (model_keeps_algorithms Rejects 40))
           sample_heap 11 sample_heap _ _ ()).
  - reflexivity.
  - reflexivity.
  - vm_compute. reflexivity.
Defined.

Lemma countdown_bounded : bounded_episodes countdown Z.to_nat 3.
Proof.
  split.
  - intros i Hi. cbn in *. lia.
  - intros s a. cbn. case_bool_decide; [by left|right; lia].
Qed.

Lemma drawing_policy_total : total_policy drawing_policy.
Proof. intros o g. by eexists. Qed.

(** An algorithm evaluated for three episodes on the countdown environment:
    the evaluation returns, and the statistics are those of at least three
    completed episodes. *)
Lemma eval_policy_generates_at_least_n_witness :
  let ex := run (model Rejects 12) (eval_policy (BaseAlgorithm 0) (VecEnv 1) 3) bounded_heap in
  ∃ trajs s,
    RolloutStats trajs ∈ called ex ∧ result ex = Return s ∧
    3 ≤ Z.of_nat (length trajs) ∧ Forall (fun t => completed t = true) trajs.
Proof.
  pose proof (eval_policy_generates_at_least_n Rejects 12 (BaseAlgorithm 0) (VecEnv 1) 3
                bounded_heap) as H.
  cbv zeta in H. destruct H as [Hsafe Hlive]; [reflexivity|].
  destruct (Hlive drawing_policy (EnvObject countdown [0; 0]) Z.to_nat 3%nat)
    as (trajs & s & Hin & Hres).
  - reflexivity.
  - apply drawing_policy_total.
  - eexists. split; reflexivity.
  - reflexivity.
  - cbn. lia.
  - apply countdown_bounded.
  - cbn. lia.
  - exists trajs, s. destruct (Hsafe trajs Hin) as (_ & Hlen & Hc & _). auto.
Defined.

(** The same evaluation, run: three episodes were collected, of two,
    three and two steps. *)
Example bounded_heap_evaluation :
  let ex := run (model Rejects 12) (eval_policy (BaseAlgorithm 0) (VecEnv 1) 3) bounded_heap in
  returns (result ex) = true ∧
  omap (fun c => match c with
                 | RolloutStats trajs => Some (length <$> trajs)
                 | _ => None
                 end) (called ex) = [[2; 3; 2]%nat].
Proof. vm_compute. done. Qed.

Lemma eval_policy_deterministic_witness :
  let ex1 :=
    run (drawing_model Rejects 40) (eval_policy (BaseAlgorithm 0) (VecEnv 1) 3) sample_heap in
  let ex2 :=
    run (drawing_model Rejects 40) (eval_policy (BaseAlgorithm 0) (VecEnv 1) 3)
      sample_heap_later in
  result ex1 = result ex2 ∧
  calls ex1 = calls ex2.
Proof.
  apply (eval_policy_deterministic (drawing_model Rejects 40) (BaseAlgorithm 0) (VecEnv 1) 3
           sample_heap sample_heap_later).
  - apply drawing_model_respects_inputs.
  - apply sample_heaps_same_inputs.
Defined.

Lemma eval_policy_nonpositive_count_witness :
  let ex := run (model Blocks 40) (eval_policy (BaseAlgorithm 0) (VecEnv 1) 0) sample_heap in
  returns (result ex) = false ∧
  (result ex = Diverge ∨
   ∃ c e, result ex = Raise e ∧ last (calls ex) = Some (c, Raised e)) ∧
  (∃ rest, calls ex =
     (MakeRng, Returned) ::
     (MakeMinEpisodes 0, status_of (make_min_episodes Blocks 0 sample_heap).2) :: rest) ∧
  (Blocks = Rejects →
   result ex = Raise (AssertionError "n >= 1") ∧
   calls ex = [(MakeRng, Returned); (MakeMinEpisodes 0, Raised (AssertionError "n >= 1"))]).
Proof.
  apply (eval_policy_nonpositive_count Blocks 40 (BaseAlgorithm 0) (VecEnv 1) 0 sample_heap).
  discriminate.
Defined.

Lemma eval_policy_keys_independent_of_n_witness :
  dom ({[ "n_traj" := 3%Q;
          "return_mean" := (22 # 3)%Q; "return_min" := 5%Q; "return_max" := 11%Q;
          "monitor_return_len" := 3%Q;
          "monitor_return_mean" := (44 # 3)%Q; "monitor_return_min" := 10%Q;
          "monitor_return_max" := 22%Q ]} : gmap string Q) =
  dom ({[ "n_traj" := 1%Q;
          "return_mean" := 5%Q; "return_min" := 5%Q; "return_max" := 5%Q;
          "monitor_return_len" := 1%Q;
          "monitor_return_mean" := 10%Q; "monitor_return_min" := 10%Q;
          "monitor_return_max" := 10%Q ]} : gmap string Q).
Proof.
  apply (eval_policy_keys_independent_of_n Rejects 40 40 (BaseAlgorithm 0) (VecEnv 1) 3 1
           sample_heap sample_heap_later).
  - reflexivity.
  - reflexivity.
  - apply sample_heaps_same_inputs.
  - vm_compute. reflexivity.
  - vm_compute. reflexivity.
Defined.

End Examples.

(** * Further properties *)

(** ** The configuration hook and the named configurations *)

(** What the hook returns, it returns for what it found at
    [config["train"]["policy_kwargs"]], by the outcome of the test [in]. *)
Lemma config_hook_return_inv {C L} (config : Py.val) (command_name : C) (logger : L) v :
  config_hook config command_name logger = Return v →
  ∃ kw present,
    train_policy_kwargs config = Return kw ∧
    Py.contains "features_extractor_class" kw = Return present ∧
    v = if present then Py.Dict ∅ else Py.Dict normalize_running.
Proof.
  unfold config_hook, train_policy_kwargs.
  destruct (Py.getitem config "train") as [train|e|]; cbn [mbind outcome_bind];
    try discriminate.
  destruct (Py.getitem train "policy_kwargs") as [kw|e|]; cbn [mbind outcome_bind];
    try discriminate.
  destruct (Py.contains "features_extractor_class" kw) as [present|e|] eqn:Hin;
    cbn [mbind outcome_bind]; try discriminate.
  intros H. exists kw, present. split; [done|]. split; [done|].
  destruct present; by injection H as <-.
Qed.

(** The hook on a configuration whose [config["train"]["policy_kwargs"]]
    is [kw]. *)
Lemma config_hook_of_policy_kwargs {C L} (config : Py.val) (command_name : C) (logger : L)
    (kw : Py.val) :
  train_policy_kwargs config = Return kw →
  config_hook config command_name logger =
    Py.contains "features_extractor_class" kw ≫= fun present : bool =>
    Return (if present then Py.Dict ∅ else Py.Dict normalize_running).
Proof.
  unfold train_policy_kwargs, config_hook. intros H.
  destruct (Py.getitem config "train") as [train|e|]; cbn [mbind outcome_bind] in *;
    try discriminate.
  rewrite H; cbn [mbind outcome_bind]. by destruct (Py.contains _ _) as [[]|e|].
Qed.

(** X1. [config_hook] never supplies a missing entry, and does not ask
    that [config["train"]["policy_kwargs"]] be a dictionary.  It returns
    exactly when both lookups succeed and the test [in] is defined of what
    they found.  A configuration without a "train" entry makes it raise
    [KeyError("train")], a "train" section without "policy_kwargs" makes it
    raise [KeyError("policy_kwargs")], and [None], an integer or a class as
    policy kwargs make it raise a [TypeError].  On a string the test is a
    substring test and on a list an element test, and the hook returns. *)
Theorem config_hook_missing_key {C L} (config : Py.val) (command_name : C) (logger : L) :
  (returns (config_hook config command_name logger) = true ↔
   ∃ kw, train_policy_kwargs config = Return kw ∧
         returns (Py.contains "features_extractor_class" kw) = true) ∧
  (∀ d, config = Py.Dict d → d !! "train" = None →
     config_hook config command_name logger = Raise (KeyError "train")) ∧
  (∀ d t, config = Py.Dict d → d !! "train" = Some (Py.Dict t) →
     t !! "policy_kwargs" = None →
     config_hook config command_name logger = Raise (KeyError "policy_kwargs")) ∧
  (∀ v, train_policy_kwargs config = Return v →
     v = Py.None_ ∨ (∃ z, v = Py.Int z) ∨ (∃ c, v = Py.Class c) →
     ∃ msg, config_hook config command_name logger = Raise (TypeError msg)) ∧
  (∀ s, train_policy_kwargs config = Return (Py.Str s) →
     config_hook config command_name logger =
       Return (if Py.is_substring "features_extractor_class" s
               then Py.Dict ∅ else Py.Dict normalize_running)) ∧
  (∀ l, train_policy_kwargs config = Return (Py.List l) →
     config_hook config command_name logger =
       Return (if existsb (Py.eq_str "features_extractor_class") l
               then Py.Dict ∅ else Py.Dict normalize_running)).
Proof.
  split; [split|split; [|split; [|split; [|split]]]].
  - destruct (config_hook config command_name logger) as [v|e|] eqn:H; try discriminate.
    intros _. apply config_hook_return_inv in H as (kw & present & H & Hin & _).
    exists kw. by rewrite Hin.
  - intros (kw & H & Hin). rewrite (config_hook_of_policy_kwargs _ _ _ _ H).
    by destruct (Py.contains _ _).
  - intros d -> Hd. unfold config_hook; cbn. by rewrite Hd.
  - intros d t -> Hd Ht. unfold config_hook; cbn. rewrite Hd; cbn. by rewrite Ht.
  - intros v H Hv. rewrite (config_hook_of_policy_kwargs _ _ _ _ H).
    destruct Hv as [->|[[z ->]|[c ->]]]; cbn; eauto.
  - intros s H. by rewrite (config_hook_of_policy_kwargs _ _ _ _ H).
  - intros l H. by rewrite (config_hook_of_policy_kwargs _ _ _ _ H).
Qed.

(** Policy kwargs that are a string: the hook looks for the key as a
    substring. *)
Example config_hook_string_kwargs :
  config_hook
    (Py.Dict {[ "train" :=
                  Py.Dict {[ "policy_kwargs" := Py.Str "my_features_extractor_class" ]} ]})
    "train_rl" () = Return (Py.Dict ∅) ∧
  config_hook
    (Py.Dict {[ "train" := Py.Dict {[ "policy_kwargs" := Py.Str "features" ]} ]})
    "train_rl" () = Return (Py.Dict normalize_running) ∧
  config_hook
    (Py.Dict {[ "train" :=
                  Py.Dict {[ "policy_kwargs" :=
                               Py.List [Py.Int 1; Py.Str "features_extractor_class"] ]} ]})
    "train_rl" () = Return (Py.Dict ∅).
Proof. vm_compute. done. Qed.

(** X2. The hook is idempotent: the policy kwargs it proposes hold the key
    it looks for, so on any configuration whose
    [config["train"]["policy_kwargs"]] is what the hook proposed, the hook
    returns the empty mapping. *)
Theorem config_hook_idempotent {C L} (config config' : Py.val) (command_name : C)
    (logger : L) (updates : gmap string Py.val) (kw : Py.val) :
  config_hook config command_name logger = Return (Py.Dict updates) →
  updates !! "policy_kwargs" = Some kw →
  train_policy_kwargs config' = Return kw →
  config_hook config' command_name logger = Return (Py.Dict ∅).
Proof.
  intros (kw0 & present & _ & _ & Hv)%config_hook_return_inv Hkw Hconfig'.
  assert (updates = normalize_running) as ->.
  { apply (f_equal (fun v => match v with Py.Dict d => d | _ => ∅ end)) in Hv.
    destruct present; [|done]. cbn in Hv. subst. by rewrite lookup_empty in Hkw. }
  unfold normalize_running in Hkw. rewrite lookup_singleton_eq in Hkw.
  injection Hkw as <-.
  rewrite (config_hook_of_kwargs _ _ _ _ Hconfig').
  rewrite bool_decide_eq_true_2; [done|].
  rewrite dom_insert_L. apply elem_of_union_l, elem_of_singleton. done.
Qed.

Lemma config_hook_idempotent_witness :
  config_hook (Py.Dict {[ "train" := Py.Dict (normalize_running ∪ fast ∪ config) ]})
    "train_rl" () = Return (Py.Dict ∅).
Proof.
  apply (config_hook_idempotent (Py.Dict {[ "train" := Py.Dict (fast ∪ config) ]}) _
           "train_rl" () normalize_running NORMALIZE_RUNNING_POLICY_KWARGS).
  - vm_compute. reflexivity.
  - reflexivity.
  - vm_compute. reflexivity.
Defined.

(** X3. Whatever the hook returns is the empty mapping or exactly the
    entries of the named configuration [normalize_running]; it never sets
    "policy_cls" or "n_episodes_eval". *)
Theorem config_hook_sets_only_policy_kwargs {C L} (config : Py.val) (command_name : C)
    (logger : L) (v : Py.val) :
  config_hook config command_name logger = Return v →
  (v = Py.Dict ∅ ∨ v = Py.Dict normalize_running) ∧
  Py.getitem v "policy_cls" = Raise (KeyError "policy_cls") ∧
  Py.getitem v "n_episodes_eval" = Raise (KeyError "n_episodes_eval").
Proof.
  intros (kw & present & _ & _ & ->)%config_hook_return_inv.
  destruct present; (split; [auto|]); split; reflexivity.
Qed.

Lemma config_hook_sets_only_policy_kwargs_witness :
  (Py.Dict normalize_running = Py.Dict ∅ ∨
   Py.Dict normalize_running = Py.Dict normalize_running) ∧
  Py.getitem (Py.Dict normalize_running) "policy_cls" = Raise (KeyError "policy_cls") ∧
  Py.getitem (Py.Dict normalize_running) "n_episodes_eval"
    = Raise (KeyError "n_episodes_eval").
Proof.
  apply (config_hook_sets_only_policy_kwargs
           (Py.Dict {[ "train" := Py.Dict (sac ∪ config) ]}) "train_rl" ()).
  vm_compute. reflexivity.
Defined.

Lemma config_hook_train {C L} (command_name : C) (logger : L) (train : gmap string Py.val) :
  config_hook (Py.Dict {[ "train" := Py.Dict train ]}) command_name logger =
    match train !! "policy_kwargs" with
    | Some kw =>
        Py.contains "features_extractor_class" kw ≫= fun present : bool =>
        Return (if present then Py.Dict ∅ else Py.Dict normalize_running)
    | None => Raise (KeyError "policy_kwargs")
    end.
Proof.
  unfold config_hook; cbn [Py.getitem mbind outcome_bind].
  rewrite lookup_singleton_eq; cbn [Py.getitem mbind outcome_bind].
  destruct (train !! "policy_kwargs") as [kw|]; cbn [mbind outcome_bind]; [|done].
  by destruct (Py.contains _ _) as [[]|e|].
Qed.

(** X4. How the named configurations meet the hook, whatever else the
    "train" section holds: a section updated with the entries of
    [normalize_disable] or of [normalize_running] makes the hook return the
    empty mapping; updating a section with the entries of [fast] or [sac]
    does not change what the hook returns; and on the defaults of [config],
    alone or under [fast] and [sac], the hook returns the entries of
    [normalize_running]. *)
Theorem config_hook_under_named_configs {C L} (command_name : C) (logger : L)
    (base : gmap string Py.val) :
  let hook train :=
    config_hook (Py.Dict {[ "train" := Py.Dict train ]}) command_name logger in
  hook (normalize_disable ∪ base) = Return (Py.Dict ∅) ∧
  hook (normalize_running ∪ base) = Return (Py.Dict ∅) ∧
  hook (fast ∪ base) = hook base ∧
  hook (sac ∪ base) = hook base ∧
  hook config = Return (Py.Dict normalize_running) ∧
  hook (fast ∪ sac ∪ config) = Return (Py.Dict normalize_running).
Proof.
  cbn beta zeta. rewrite !config_hook_train.
  assert (Hfast : ∀ m : gmap string Py.val,
            (fast ∪ m) !! "policy_kwargs" = m !! "policy_kwargs").
  { intros m. apply lookup_union_r. by apply lookup_singleton_ne. }
  assert (Hsac : ∀ m : gmap string Py.val,
            (sac ∪ m) !! "policy_kwargs" = m !! "policy_kwargs").
  { intros m. apply lookup_union_r. by apply lookup_singleton_ne. }
  split; [|split; [|split; [|split; [|split]]]].
  - unfold normalize_disable.
    erewrite lookup_union_Some_l by apply lookup_singleton_eq.
    cbn [Py.contains mbind outcome_bind].
    rewrite bool_decide_eq_true_2; [done|].
    rewrite dom_singleton_L. by apply elem_of_singleton.
  - unfold normalize_running.
    erewrite lookup_union_Some_l by apply lookup_singleton_eq.
    unfold NORMALIZE_RUNNING_POLICY_KWARGS. cbn [Py.contains mbind outcome_bind].
    rewrite bool_decide_eq_true_2; [done|].
    rewrite dom_insert_L. by apply elem_of_union_l, elem_of_singleton.
  - by rewrite Hfast.
  - by rewrite Hsac.
  - by vm_compute.
  - rewrite <- (assoc_L (∪)), Hfast, Hsac. by vm_compute.
Qed.

(** ** More on [eval_policy] over arbitrary collaborators *)

Section Calls.
Context (C : collaborators).

(** A call of [generate_trajectories] on record was made with the answers of
    the calls before it, and the heap at the end is the one generation and,
    after it, the statistics left. *)
Lemma generate_call_inv rl_algo venv n h rl e su g st :
  (GenerateTrajectories rl e su g, st) ∈ calls (run C (eval_policy rl_algo venv n) h) →
  rl = rl_algo ∧
  ∃ h1 h2 h3,
    on_make_rng C h = (h1, Return g) ∧
    on_make_min_episodes C n h1 = (h2, Return su) ∧
    environment_obtained rl_algo venv h2 h3 e ∧
    status_of (on_generate_trajectories C rl_algo e su g h3).2 = st ∧
    (∀ I : heap → Prop, kept_by_rollout C I → I h3 →
       I (final (run C (eval_policy rl_algo venv n) h))).
Proof.
  destruct rl_algo; run_cases; intros H; elem_of_log; simplify_eq.
  all: try get_env_same_heap.
  all: split; [done|]; do 3 eexists.
  all: split; [reflexivity|split; [eassumption|split; [|split]]].
  all: try (unfold environment_obtained; by eauto).
  all: try match goal with
           | E : on_generate_trajectories _ _ _ _ _ _ = _ |- status_of _ = _ =>
               by rewrite E
           end.
  all: intros I (_ & _ & Hgen & Hstats) HI.
  all: match goal with
       | E : on_generate_trajectories _ ?rl ?e ?su ?g ?h3 = _ |- _ =>
           specialize (Hgen rl e su g h3 HI); rewrite E in Hgen; cbn in Hgen
       end.
  all: try match goal with
           | E : on_rollout_stats _ ?trajs ?h4 = _ |- _ =>
               specialize (Hstats trajs h4 Hgen); rewrite E in Hstats; cbn in Hstats
           end.
  all: done.
Qed.

(** X5. The data flow of [eval_policy], for either variant and whether or
    not the evaluation returns: [make_min_episodes] is only called with
    [n_episodes_eval]; [generate_trajectories] is only called with the
    object passed in, the criterion [make_min_episodes] returned and the
    generator [make_rng] returned; and [rollout_stats] is only called with
    the trajectories that call of [generate_trajectories] returned. *)
Theorem eval_policy_data_flow (rl_algo : rl_object) (venv : vec_env) (n : Z) (h : heap) :
  let ex := run C (eval_policy rl_algo venv n) h in
  (∀ n' st, (MakeMinEpisodes n', st) ∈ calls ex → n' = n) ∧
  (∀ rl e su g st, (GenerateTrajectories rl e su g, st) ∈ calls ex →
     rl = rl_algo ∧
     ∃ h1 h2, on_make_rng C h = (h1, Return g) ∧
              on_make_min_episodes C n h1 = (h2, Return su)) ∧
  (∀ trajs st, (RolloutStats trajs, st) ∈ calls ex →
     ∃ e su g h3 h4,
       (GenerateTrajectories rl_algo e su g, Returned) ∈ calls ex ∧
       on_generate_trajectories C rl_algo e su g h3 = (h4, Return trajs)).
Proof.
  cbn zeta. split; [|split].
  - intros n' st. destruct rl_algo; run_cases; intros H; elem_of_log; by simplify_eq.
  - intros rl e su g st (-> & h1 & h2 & h3 & Hrng & Hmin & _)%generate_call_inv.
    split; [done|]. by exists h1, h2.
  - intros trajs st. destruct rl_algo; run_cases; intros H; elem_of_log; simplify_eq.
    all: do 5 eexists; (split; [in_log|eassumption]).
Qed.

(** X6. [set_env] is called exactly when the object is a training algorithm
    and both [make_rng] and [make_min_episodes] have returned, and then on
    that algorithm with the environment passed in: a random source that
    cannot be made, or an episode count that [make_min_episodes] refuses,
    leaves the algorithm as it is. *)
Theorem eval_policy_set_env_iff (rl_algo : rl_object) (venv : vec_env) (n : Z) (h : heap) :
  let ex := run C (eval_policy rl_algo venv n) h in
  (∀ algo v st, (SetEnv algo v, st) ∈ calls ex →
     rl_algo = BaseAlgorithm algo ∧ v = venv ∧
     ∃ h1 g h2 su,
       on_make_rng C h = (h1, Return g) ∧
       on_make_min_episodes C n h1 = (h2, Return su) ∧
       st = status_of (sb3.set_env algo venv h2).2) ∧
  (∀ algo h1 g h2 su,
     rl_algo = BaseAlgorithm algo →
     on_make_rng C h = (h1, Return g) →
     on_make_min_episodes C n h1 = (h2, Return su) →
     (SetEnv algo venv, status_of (sb3.set_env algo venv h2).2) ∈ calls ex).
Proof.
  cbn zeta. split.
  - intros algo v st. destruct rl_algo; run_cases; intros H; elem_of_log; simplify_eq.
    all: split; [done|split; [done|]]; do 4 eexists.
    all: split; [reflexivity|split; [eassumption|]].
    all: match goal with E : sb3.set_env _ _ _ = _ |- _ => by rewrite E end.
  - intros algo h1 g h2 su -> E1 E2. run_cases; simplify_eq; same_answers.
    all: match goal with E : sb3.set_env _ _ _ = _ |- _ => rewrite E end.
    all: cbn [status_of snd]; in_log.
Qed.

(** The algorithm objects after an evaluation of the algorithm [algo], when
    the collaborators leave algorithm objects alone. *)
Lemma eval_policy_algorithms algo venv n h :
  (∀ A, kept_by_rollout C (fun h0 => algorithms h0 = A)) →
  (∀ other, other ≠ algo →
     algorithms (final (run C (eval_policy (BaseAlgorithm algo) venv n) h)) !! other
     = algorithms h !! other) ∧
  option_Forall2 same_algorithm (algorithms h !! algo)
    (algorithms (final (run C (eval_policy (BaseAlgorithm algo) venv n) h)) !! algo).
Proof.
  intros Hkeep.
  set (I := fun h0 : heap =>
         (∀ other, other ≠ algo → algorithms h0 !! other = algorithms h !! other) ∧
         option_Forall2 same_algorithm (algorithms h !! algo) (algorithms h0 !! algo)).
  assert (HI : I h).
  { split; [done|]. destruct (algorithms h !! algo); by constructor. }
  assert (Hsame : ∀ h0 h0', algorithms h0' = algorithms h0 → I h0 → I h0').
  { intros h0 h0' Heq [Ho Ha]. split; intros; rewrite Heq; auto. }
  revert HI.
  apply (run_invariant C _ I
           (fun c => match c with SetEnv a _ => a = algo | _ => True end)).
  - intros [|n'|a v|a|rl e su g|trajs] h0 HP Hh0; cbn [handle].
    + eapply Hsame; [|done]. by apply (Hkeep (algorithms h0)).
    + eapply Hsame; [|done]. by apply (Hkeep (algorithms h0)).
    + subst a. unfold sb3.set_env.
      destruct (algorithms h0 !! algo) as [alg|] eqn:Halg; [|exact Hh0].
      destruct (alg_accepts alg v); [|exact Hh0].
      unfold I in *. destruct Hh0 as [Ho Ha]. rewrite Halg in Ha. cbn. split.
      * intros other Hne. rewrite lookup_insert_ne by done. by apply Ho.
      * rewrite lookup_insert_eq. inversion Ha as [a0 ? (?&?&?)|]; subst.
        constructor. by split.
    + by rewrite get_env_heap.
    + eapply Hsame; [|done]. by apply (Hkeep (algorithms h0)).
    + eapply Hsame; [|done]. by apply (Hkeep (algorithms h0)).
  - unfold called. run_cases; cbn; by repeat constructor.
Qed.

(** X7. Evaluating the algorithm [algo] leaves every other algorithm object
    as it was, environment included, and changes of [algo] itself nothing
    but the environment it holds (its policy, its wrappers and its check of
    spaces stay), whether the evaluation returns or not, provided the
    collaborators leave algorithm objects alone. *)
Theorem eval_policy_other_algorithms_untouched (algo : nat) (venv : vec_env) (n : Z)
    (h : heap) :
  (∀ A, kept_by_rollout C (fun h0 => algorithms h0 = A)) →
  let ex := run C (eval_policy (BaseAlgorithm algo) venv n) h in
  (∀ other, other ≠ algo →
     algorithms (final ex) !! other = algorithms h !! other ∧
     env_of (final ex) other = env_of h other) ∧
  option_Forall2 same_algorithm (algorithms h !! algo) (algorithms (final ex) !! algo).
Proof.
  intros Hkeep. cbn zeta.
  destruct (eval_policy_algorithms algo venv n h Hkeep) as [Ho Ha].
  split; [|done]. intros other Hne. unfold env_of. by rewrite (Ho other Hne).
Qed.

(** The environment generation was given is the passed one under the
    wrappers of the algorithm as it was before the call, and the algorithm
    holds it at the end. *)
Lemma generation_env_inv algo venv n h e :
  (∀ A, kept_by_rollout C (fun h0 => algorithms h0 = A)) →
  e ∈ omap generation_env (called (run C (eval_policy (BaseAlgorithm algo) venv n) h)) →
  ∃ alg, algorithms h !! algo = Some alg ∧ e = sb3.wrap_env alg venv ∧
         env_of (final (run C (eval_policy (BaseAlgorithm algo) venv n) h)) algo = Some e.
Proof.
  intros Hkeep (c & (cst & -> & Hin)%list_elem_of_fmap & Hc)%list_elem_of_omap.
  destruct cst as [[|n'|a v|a|rl e' su g|trajs] st]; try discriminate.
  injection Hc as ->.
  apply generate_call_inv in Hin
    as (_ & h1 & h2 & h3 & Hrng & Hmin & (u & Hset & Hget) & _ & Hfinal).
  destruct (Hkeep (algorithms h)) as (Hk1 & Hk2 & _).
  specialize (Hk1 h eq_refl). rewrite Hrng in Hk1. cbn in Hk1.
  specialize (Hk2 n h1 Hk1). rewrite Hmin in Hk2. cbn in Hk2.
  apply set_env_returns in Hset as (alg & Halg & _ & Henv & _).
  apply get_env_returns in Hget as [_ Hget]. rewrite Henv in Hget. injection Hget as <-.
  exists alg. rewrite <- Hk2. split; [done|split; [done|]].
  specialize (Hfinal (fun h0 => algorithms h0 = algorithms h3) (Hkeep _) eq_refl).
  unfold env_of in *. by rewrite Hfinal.
Qed.

(** X8. Evaluating an algorithm again does not stack wrappers: when the
    collaborators leave algorithm objects alone and both evaluations get to
    generate trajectories, the second one, started from the heap the first
    one left, generates on the same environment as the first, and that is
    the environment the algorithm holds after either. *)
Theorem eval_policy_wrappers_do_not_accumulate (algo : nat) (venv : vec_env) (n n' : Z)
    (h : heap) (e1 e2 : vec_env) :
  (∀ A, kept_by_rollout C (fun h0 => algorithms h0 = A)) →
  let ex1 := run C (eval_policy (BaseAlgorithm algo) venv n) h in
  let ex2 := run C (eval_policy (BaseAlgorithm algo) venv n') (final ex1) in
  e1 ∈ omap generation_env (called ex1) →
  e2 ∈ omap generation_env (called ex2) →
  e2 = e1 ∧ env_of (final ex1) algo = Some e1 ∧ env_of (final ex2) algo = Some e1.
Proof.
  intros Hkeep. cbn zeta.
  intros (alg1 & Halg1 & -> & Hfinal1)%generation_env_inv
         (alg2 & Halg2 & -> & Hfinal2)%generation_env_inv; try done.
  destruct (eval_policy_algorithms algo venv n h Hkeep) as [_ Hsame].
  rewrite Halg1, Halg2 in Hsame. inversion Hsame as [? ? (_ & Hw & _)|]; subst.
  assert (sb3.wrap_env alg2 venv = sb3.wrap_env alg1 venv) as Heq
    by (unfold sb3.wrap_env; by rewrite Hw).
  rewrite Heq in *. done.
Qed.

(** X9. The order of the calls.  What [eval_policy] calls is always an
    initial part of the sequence [make_rng], [make_min_episodes], ([set_env],
    [get_env] for an algorithm), [generate_trajectories], [rollout_stats]:
    the random source and the criterion are made before the algorithm is
    touched, and the statistics come last.  It is the whole sequence, every
    call returned, exactly when the evaluation returns. *)
Theorem eval_policy_call_sequence (rl_algo : rl_object) (venv : vec_env) (n : Z) (h : heap) :
  let ex := run C (eval_policy rl_algo venv n) h in
  ∃ train_env su g trajs,
    called ex `prefix_of` call_sequence rl_algo venv n train_env su g trajs ∧
    (returns (result ex) = true ↔
     calls ex = (fun c => (c, Returned)) <$> call_sequence rl_algo venv n train_env su g trajs).
Proof.
  cbn zeta. unfold called, call_sequence.
  destruct rl_algo; run_cases; cbn.
  all: eexists _, _, _, _; split;
    [eexists; reflexivity|split; [try discriminate|intros H; try discriminate H]].
  all: try reflexivity.
  Unshelve.
  all: first [exact venv | exact (fun _ => true) | exact 0 | exact []].
Qed.

End Calls.

(** ** The rollout model leaves algorithm objects alone *)

Lemma model_keeps_all_algorithms d fuel (A : gmap nat algorithm) :
  kept_by_rollout (RolloutModel.model d fuel) (fun h0 => algorithms h0 = A).
Proof.
  split; [|split; [|split]]; cbn.
  - done.
  - intros n h. by rewrite make_min_episodes_heap.
  - intros rl e su g h <-. apply generate_trajectories_algorithms.
  - intros trajs h. by rewrite rollout_stats_heap.
Qed.

Lemma eval_policy_other_algorithms_untouched_witness :
  let ex := run (RolloutModel.model RolloutModel.Rejects 40)
              (eval_policy (BaseAlgorithm 0) (VecEnv 1) 3) sample_heap in
  (∀ other, other ≠ 0%nat →
     algorithms (final ex) !! other = algorithms sample_heap !! other ∧
     env_of (final ex) other = env_of sample_heap other) ∧
  option_Forall2 same_algorithm (algorithms sample_heap !! 0%nat)
    (algorithms (final ex) !! 0%nat).
Proof.
  apply (eval_policy_other_algorithms_untouched
           (RolloutModel.model RolloutModel.Rejects 40) 0 (VecEnv 1) 3 sample_heap).
  apply model_keeps_all_algorithms.
Defined.

Lemma eval_policy_wrappers_do_not_accumulate_witness :
  let ex1 := run (RolloutModel.model RolloutModel.Rejects 40)
               (eval_policy (BaseAlgorithm 0) (VecEnv 1) 3) sample_heap in
  let ex2 := run (RolloutModel.model RolloutModel.Rejects 40)
               (eval_policy (BaseAlgorithm 0) (VecEnv 1) 1) (final ex1) in
  VecEnvWrapper 7 (VecEnvWrapper 8 (VecEnv 1)) = VecEnvWrapper 7 (VecEnvWrapper 8 (VecEnv 1)) ∧
  env_of (final ex1) 0 = Some (VecEnvWrapper 7 (VecEnvWrapper 8 (VecEnv 1))) ∧
  env_of (final ex2) 0 = Some (VecEnvWrapper 7 (VecEnvWrapper 8 (VecEnv 1))).
Proof.
  apply (eval_policy_wrappers_do_not_accumulate
           (RolloutModel.model RolloutModel.Rejects 40) 0 (VecEnv 1) 3 1 sample_heap).
  - apply model_keeps_all_algorithms.
  - vm_compute. apply list_elem_of_here.
  - vm_compute. apply list_elem_of_here.
Defined.

(** [suppress_sacred_error] calls nothing and returns. *)
Example suppress_sacred_error_runs C (policy_kwargs : Py.val) h :
  run C (suppress_sacred_error policy_kwargs) h = Execution h [] (Return ()).
Proof. reflexivity. Qed.
